(** * osin-postgres: the PostgreSQL storage backend of an OAuth2 server

    A shallow embedding of [storage/postgres/postgres.go] and of the part of
    [database/sql] and of the PostgreSQL engine that the file drives: four
    tables with a primary key each, single statements, and one transaction.

    The file is organised as follows:
    - the values exchanged with the protocol engine (module [osin]);
    - the relational store: rows, tables, statements and their effect;
    - the driver: calls that may fail, rows that are scanned, transactions;
    - the functions of [postgres.go], in the order of the source;
    - the properties of these functions. *)

From stdpp Require Import gmap strings list fin_maps.
From Stdlib Require Import ZArith Ascii.

Set Warnings "-register-all".

Open Scope string_scope.
Open Scope Z_scope.

(** ** Values of the protocol engine *)

(** Modelled from the spec: the structs [osin.DefaultClient],
    [osin.AuthorizeData] and [osin.AccessData] are declared in the osin
    library, which is not part of this repository.  They carry the fields
    that [postgres.go] reads and writes.  An interface or pointer that may be
    [nil] is an [option]; [time.Time] and [int32] are integers. *)
Module osin.

Record DefaultClient := mkDefaultClient {
  Id : string;
  Secret : string;
  RedirectUri : string;
  UserData : option string;
}.

(** [func (d *DefaultClient) GetId() string] *)
Definition GetId (d : DefaultClient) : string := Id d.

Module AuthorizeData.
Record t := mk {
  Client : option DefaultClient;
  Code : string;
  ExpiresIn : Z;
  Scope : string;
  RedirectUri : string;
  State : string;
  CreatedAt : Z;
}.

(** [var data osin.AuthorizeData] *)
Definition zero : t := mk None "" 0 "" "" "" 0.
End AuthorizeData.

Module AccessData.
Inductive t := mk {
  Client : option DefaultClient;
  AuthorizeData : option AuthorizeData.t;
  AccessData : option t;
  AccessToken : string;
  RefreshToken : string;
  ExpiresIn : Z;
  Scope : string;
  RedirectUri : string;
  CreatedAt : Z;
}.

(** [var result osin.AccessData] *)
Definition zero : t := mk None None None "" "" 0 "" "" 0.

(** Number of predecessors that are attached below a grant. *)
Fixpoint depth (d : t) : nat :=
  match AccessData d with
  | None => O
  | Some p => S (depth p)
  end.
End AccessData.

End osin.

(** ** The relational store *)

Inductive table := TClient | TAuthorize | TAccess | TRefresh.

(** Errors that reach the caller: [sql.ErrNoRows], the PostgreSQL errors
    23505 (unique_violation), 42P07 (duplicate_table) and 42P01
    (undefined_table), and a failure of the connection itself. *)
Inductive error :=
  | ErrNoRows
  | UniqueViolation (constraint : string)
  | DuplicateTable (t : table)
  | UndefinedTable (t : table)
  | DriverFault (n : nat).

(** Rows carry the columns that are not the primary key; the key is the key
    of the map. *)
Record client_row := mkClientRow {
  c_secret : string;
  c_redirect_uri : string;
}.

Record authorize_row := mkAuthorizeRow {
  au_client : string;
  au_expires_in : Z;
  au_scope : string;
  au_redirect_uri : string;
  au_state : string;
  au_created_at : Z;
}.

Record access_row := mkAccessRow {
  ac_client : string;
  ac_authorize : string;
  ac_previous : string;
  ac_refresh_token : string;
  ac_expires_in : Z;
  ac_scope : string;
  ac_redirect_uri : string;
  ac_created_at : Z;
}.

(** A table that has not been created is [None]. *)
Record DB := mkDB {
  client : option (gmap string client_row);
  authorize : option (gmap string authorize_row);
  access : option (gmap string access_row);
  refresh : option (gmap string string);
}.

Definition exists_table (t : table) (d : DB) : bool :=
  match t with
  | TClient => bool_decide (is_Some (client d))
  | TAuthorize => bool_decide (is_Some (authorize d))
  | TAccess => bool_decide (is_Some (access d))
  | TRefresh => bool_decide (is_Some (refresh d))
  end.

Definition create_table (t : table) (d : DB) : DB :=
  match t with
  | TClient => mkDB (Some ∅) (authorize d) (access d) (refresh d)
  | TAuthorize => mkDB (client d) (Some ∅) (access d) (refresh d)
  | TAccess => mkDB (client d) (authorize d) (Some ∅) (refresh d)
  | TRefresh => mkDB (client d) (authorize d) (access d) (Some ∅)
  end.

(** The statements that [postgres.go] sends, with their parameters. *)
Inductive statement :=
  | CreateTable (t : table) (if_not_exists : bool)
  | InsertClient (id : string) (r : client_row)
  | UpdateClientSet (id : string) (r : client_row)
  | InsertAuthorize (code : string) (r : authorize_row)
  | DeleteAuthorize (code : string)
  | InsertAccess (access_token : string) (r : access_row)
  | DeleteAccess (access_token : string)
  | InsertRefresh (token : string) (access_token : string)
  | DeleteRefresh (token : string).

(** [var schemas = []string{...}]: the first statement is a plain
    [CREATE TABLE], the other three are [CREATE TABLE IF NOT EXISTS]. *)
Definition schemas : list statement :=
  [ CreateTable TClient false;
    CreateTable TAuthorize true;
    CreateTable TAccess true;
    CreateTable TRefresh true ].

(** Insertion under a primary key. *)
Definition insert_pk {V} (t : table) (pk : string) (k : string) (v : V)
    (m : option (gmap string V)) : gmap string V + error :=
  match m with
  | None => inr (UndefinedTable t)
  | Some m =>
      match m !! k with
      | Some _ => inr (UniqueViolation pk)
      | None => inl (<[k := v]> m)
      end
  end.

Definition on_table {V} (t : table) (f : gmap string V -> gmap string V)
    (m : option (gmap string V)) : gmap string V + error :=
  match m with
  | None => inr (UndefinedTable t)
  | Some m => inl (f m)
  end.

(** The effect of one statement on the tables. *)
Definition run (q : statement) (d : DB) : DB + error :=
  match q with
  | CreateTable t if_not_exists =>
      if exists_table t d
      then if if_not_exists then inl d else inr (DuplicateTable t)
      else inl (create_table t d)
  | InsertClient id r =>
      match insert_pk TClient "client_pk" id r (client d) with
      | inl m => inl (mkDB (Some m) (authorize d) (access d) (refresh d))
      | inr e => inr e
      end
  | UpdateClientSet id r =>
      match on_table TClient (alter (fun _ => r) id) (client d) with
      | inl m => inl (mkDB (Some m) (authorize d) (access d) (refresh d))
      | inr e => inr e
      end
  | InsertAuthorize code r =>
      match insert_pk TAuthorize "authorize_pk" code r (authorize d) with
      | inl m => inl (mkDB (client d) (Some m) (access d) (refresh d))
      | inr e => inr e
      end
  | DeleteAuthorize code =>
      match on_table TAuthorize (delete code) (authorize d) with
      | inl m => inl (mkDB (client d) (Some m) (access d) (refresh d))
      | inr e => inr e
      end
  | InsertAccess tok r =>
      match insert_pk TAccess "access_pk" tok r (access d) with
      | inl m => inl (mkDB (client d) (authorize d) (Some m) (refresh d))
      | inr e => inr e
      end
  | DeleteAccess tok =>
      match on_table TAccess (delete tok) (access d) with
      | inl m => inl (mkDB (client d) (authorize d) (Some m) (refresh d))
      | inr e => inr e
      end
  | InsertRefresh token tok =>
      match insert_pk TRefresh "refresh_pk" token tok (refresh d) with
      | inl m => inl (mkDB (client d) (authorize d) (access d) (Some m))
      | inr e => inr e
      end
  | DeleteRefresh token =>
      match on_table TRefresh (delete token) (refresh d) with
      | inl m => inl (mkDB (client d) (authorize d) (access d) (Some m))
      | inr e => inr e
      end
  end.

(** [SELECT ... WHERE key=$1 LIMIT 1]: the row, or the error that [Scan]
    will report. *)
Definition select {V} (t : table) (k : string) (m : option (gmap string V))
    : V + error :=
  match m with
  | None => inr (UndefinedTable t)
  | Some m =>
      match m !! k with
      | Some v => inl v
      | None => inr ErrNoRows
      end
  end.

(** ** The driver *)

(** What [*sql.DB] stands for: the tables of the server, and the failures
    that the connection will meet.  Every call to the driver consumes the
    head of [faults]: [Some e] makes the call fail with [e] and without
    effect, [None] lets it through.  An empty list is a healthy connection. *)
Record Storage := mkStorage {
  db : DB;
  faults : list (option error);
}.

(** A call returns and leaves a store, or panics on a nil dereference, or
    has not returned within the recursion depth it was given. *)
Inductive outcome (A : Type) :=
  | Done (a : A) (s : Storage)
  | Panic (s : Storage)
  | Diverge.
Arguments Done {A} a s.
Arguments Panic {A} s.
Arguments Diverge {A}.

Definition M (A : Type) : Type := Storage -> outcome A.

Definition ret {A} (a : A) : M A := fun s => Done a s.

Definition bind {A B} (m : M A) (k : A -> M B) : M B :=
  fun s =>
    match m s with
    | Done a s' => k a s'
    | Panic s' => Panic s'
    | Diverge => Diverge
    end.

Definition panic {A} : M A := fun s => Panic s.
Definition diverge {A} : M A := fun _ => Diverge.

Notation "'let*' p ':=' m 'in' k" :=
  (bind m (fun x => match x with p => k end))
  (at level 10, p pattern, m at level 200, k at level 200).

Definition next_fault : M (option error) :=
  fun s =>
    match faults s with
    | [] => Done None s
    | f :: fs => Done f (mkStorage (db s) fs)
    end.

(** [s.db.Exec(query, args...)]; the [sql.Result] is never looked at. *)
Definition Exec (q : statement) : M (option error) :=
  let* f := next_fault in
  match f with
  | Some e => ret (Some e)
  | None =>
      fun s =>
        match run q (db s) with
        | inl d => Done None (mkStorage d (faults s))
        | inr e => Done (Some e) s
        end
  end.

(** [s.db.QueryRow(query, args...)]: the error is kept in the row until it
    is scanned. *)
Definition QueryRow {V} (q : DB -> V + error) : M (V + error) :=
  let* f := next_fault in
  match f with
  | Some e => ret (inr e)
  | None => fun s => Done (q (db s)) s
  end.

(** [row.Scan(dest...)]: on an error the destinations keep their values. *)
Definition Scan {V} (row : V + error) (dest : V) : V * option error :=
  match row with
  | inl v => (v, None)
  | inr e => (dest, Some e)
  end.

(** [s.db.Prepare(query)] followed by [st.Exec(args...)]. *)
Definition Prepare (t : table) : M (option error) :=
  let* f := next_fault in
  match f with
  | Some e => ret (Some e)
  | None =>
      fun s => if exists_table t (db s) then Done None s
               else Done (Some (UndefinedTable t)) s
  end.

(** A transaction works on its own copy of the tables, which [Commit]
    installs and [Rollback] drops. *)
Record Tx := mkTx { work : DB }.

(** [s.db.Begin()] *)
Definition Begin : M (Tx + error) :=
  let* f := next_fault in
  match f with
  | Some e => ret (inr e)
  | None => fun s => Done (inl (mkTx (db s))) s
  end.

(** [tx.Exec(query, args...)]; [tx] is a pointer, the transaction after the
    call is returned with the error. *)
Definition TxExec (tx : Tx) (q : statement) : M (Tx * option error) :=
  let* f := next_fault in
  match f with
  | Some e => ret (tx, Some e)
  | None =>
      match run q (work tx) with
      | inl d => ret (mkTx d, None)
      | inr e => ret (tx, Some e)
      end
  end.

(** [tx.Rollback()] *)
Definition Rollback (tx : Tx) : M (option error) := next_fault.

(** [tx.Commit()] *)
Definition Commit (tx : Tx) : M (option error) :=
  let* f := next_fault in
  match f with
  | Some e => ret (Some e)
  | None => fun s => Done None (mkStorage (work tx) (faults s))
  end.

(** ** postgres.go *)

Import osin.

Definition nonempty (x : string) : bool := negb (String.eqb x "").

(** [func (s *Storage) CreateSchemas() error]; the log line is not
    modelled. *)
Fixpoint CreateSchemas_range (l : list statement) : M (option error) :=
  match l with
  | [] => ret None
  | schema :: l' =>
      let* err := Exec schema in
      match err with
      | Some e => ret (Some e)
      | None => CreateSchemas_range l'
      end
  end.

Definition CreateSchemas : M (option error) := CreateSchemas_range schemas.

(** [func (s *Storage) GetClient(id string) (osin.Client, error)] *)
Definition GetClient (id : string) : M (option DefaultClient * option error) :=
  let* row := QueryRow (fun d =>
           match select TClient id (client d) with
           | inl r => inl (mkDefaultClient id (c_secret r) (c_redirect_uri r) None)
           | inr e => inr e
           end) in
  let c := mkDefaultClient "" "" "" None in
  let '(c, err) := Scan row c in
  match err with
  | Some e => ret (None, Some e)
  | None => ret (Some c, None)
  end.

(** [func (s *Storage) UpdateClient(id, secret, redirectURI string) (osin.Client, error)] *)
Definition UpdateClient (id secret redirectURI : string)
    : M (option DefaultClient * option error) :=
  let* err := Exec (UpdateClientSet id (mkClientRow secret redirectURI)) in
  match err with
  | Some e => ret (None, Some e)
  | None => ret (Some (mkDefaultClient id secret redirectURI None), None)
  end.

(** [func (s *Storage) CreateClient(id, secret, redirectURI string) (osin.Client, error)] *)
Definition CreateClient (id secret redirectURI : string)
    : M (option DefaultClient * option error) :=
  let* err := Exec (InsertClient id (mkClientRow secret redirectURI)) in
  match err with
  | Some e => ret (None, Some e)
  | None => ret (Some (mkDefaultClient id secret redirectURI None), None)
  end.

(** [func (s *Storage) SaveAuthorize(data *osin.AuthorizeData) (err error)];
    [data.Client.GetId()] is evaluated before the statement is sent. *)
Definition SaveAuthorize (data : AuthorizeData.t) : M (option error) :=
  match AuthorizeData.Client data with
  | None => panic
  | Some c =>
      Exec (InsertAuthorize (AuthorizeData.Code data)
              (mkAuthorizeRow (GetId c) (AuthorizeData.ExpiresIn data)
                 (AuthorizeData.Scope data) (AuthorizeData.RedirectUri data)
                 (AuthorizeData.State data) (AuthorizeData.CreatedAt data)))
  end.

(** [func (s *Storage) LoadAuthorize(code string)], which returns a pointer
    to an [osin.AuthorizeData] and an error. *)
Definition LoadAuthorize (code : string)
    : M (option AuthorizeData.t * option error) :=
  let data := AuthorizeData.zero in
  let cid := "" in
  let* row := QueryRow (fun d =>
           match select TAuthorize code (authorize d) with
           | inl r =>
               inl (au_client r,
                    AuthorizeData.mk None code (au_expires_in r) (au_scope r)
                      (au_redirect_uri r) (au_state r) (au_created_at r))
           | inr e => inr e
           end) in
  let '((cid, data), err) := Scan row (cid, data) in
  match err with
  | Some e => ret (None, Some e)
  | None =>
      let* (c, err) := GetClient cid in
      match err with
      | Some e => ret (None, Some e)
      | None =>
          let data :=
            AuthorizeData.mk c (AuthorizeData.Code data)
              (AuthorizeData.ExpiresIn data) (AuthorizeData.Scope data)
              (AuthorizeData.RedirectUri data) (AuthorizeData.State data)
              (AuthorizeData.CreatedAt data) in
          ret (Some data, None)
      end
  end.

(** [func (s *Storage) RemoveAuthorize(code string) (err error)] *)
Definition RemoveAuthorize (code : string) : M (option error) :=
  Exec (DeleteAuthorize code).

(** [func saveRefresh(tx *sql.Tx, refresh, access string) (err error)] *)
Definition saveRefresh (tx : Tx) (refresh access : string)
    : M (Tx * option error) :=
  let* (tx, err) := TxExec tx (InsertRefresh refresh access) in
  match err with
  | Some e =>
      let* rbe := Rollback tx in
      match rbe with
      | Some r => ret (tx, Some r)
      | None => ret (tx, err)
      end
  | None => ret (tx, err)
  end.

(** [func (s *Storage) SaveAccess(data *osin.AccessData) (err error)] *)
Definition SaveAccess (data : AccessData.t) : M (option error) :=
  let prev :=
    match AccessData.AccessData data with
    | Some p => AccessData.AccessToken p
    | None => ""
    end in
  let* b := Begin in
  match b with
  | inr e => ret (Some e)
  | inl tx =>
      let* (tx, err) :=
         (if nonempty (AccessData.RefreshToken data)
          then saveRefresh tx (AccessData.RefreshToken data)
                 (AccessData.AccessToken data)
          else ret (tx, None)) in
      match err with
      | Some e => ret (Some e)
      | None =>
          match AccessData.Client data, AccessData.AuthorizeData data with
          | Some c, Some a =>
              let* (tx, err) :=
                 TxExec tx
                   (InsertAccess (AccessData.AccessToken data)
                      (mkAccessRow (GetId c) (AuthorizeData.Code a) prev
                         (AccessData.RefreshToken data)
                         (AccessData.ExpiresIn data) (AccessData.Scope data)
                         (AccessData.RedirectUri data)
                         (AccessData.CreatedAt data))) in
              match err with
              | Some e =>
                  let* rbe := Rollback tx in
                  match rbe with
                  | Some r => ret (Some r)
                  | None => ret (Some e)
                  end
              | None =>
                  let* err := Commit tx in
                  match err with
                  | Some e => ret (Some e)
                  | None => ret None
                  end
              end
          | _, _ => panic
          end
      end
  end.

(** [func (s *Storage) LoadAccess(code string)], which returns a pointer to
    an [osin.AccessData] and an error.
    The error of [row.Scan] is assigned to [err] and overwritten by the
    next assignment without having been read.  [fuel] bounds the depth of
    the recursion. *)
Fixpoint LoadAccess (fuel : nat) (code : string)
    : M (option AccessData.t * option error) :=
  match fuel with
  | O => diverge
  | S fuel =>
      let cid := "" in
      let prevAccessToken := "" in
      let authorizeCode := "" in
      let result := AccessData.zero in
      let* row := QueryRow (fun d =>
               match select TAccess code (access d) with
               | inl r =>
                   inl (ac_client r, ac_authorize r, ac_previous r,
                        AccessData.mk None None None code
                          (ac_refresh_token r) (ac_expires_in r) (ac_scope r)
                          (ac_redirect_uri r) (ac_created_at r))
               | inr e => inr e
               end) in
      let '((cid, authorizeCode, prevAccessToken, result), err) :=
        Scan row (cid, authorizeCode, prevAccessToken, result) in
      let* (client, err) := GetClient cid in
      match err with
      | Some e => ret (None, Some e)
      | None =>
          let* (authorize, err) := LoadAuthorize authorizeCode in
          match err with
          | Some e => ret (None, Some e)
          | None =>
              let fill prev :=
                AccessData.mk client authorize prev
                  (AccessData.AccessToken result)
                  (AccessData.RefreshToken result)
                  (AccessData.ExpiresIn result) (AccessData.Scope result)
                  (AccessData.RedirectUri result)
                  (AccessData.CreatedAt result) in
              if nonempty prevAccessToken
              then
                let* (prevAccess, err') := LoadAccess fuel prevAccessToken in
                match err' with
                | Some e => ret (None, Some e)
                | None => ret (Some (fill prevAccess), err)
                end
              else ret (Some (fill None), err)
          end
      end
  end.

(** [func (s *Storage) RemoveAccess(code string) (err error)] *)
Definition RemoveAccess (code : string) : M (option error) :=
  let* err := Prepare TAccess in
  match err with
  | Some e => ret (Some e)
  | None => Exec (DeleteAccess code)
  end.

(** [func (s *Storage) LoadRefresh(code string)], with the result type of
    [LoadAccess]. *)
Definition LoadRefresh (fuel : nat) (code : string)
    : M (option AccessData.t * option error) :=
  let* row := QueryRow (fun d => select TRefresh code (refresh d)) in
  let '(access, err) := Scan row "" in
  match err with
  | Some e => ret (None, Some e)
  | None => LoadAccess fuel access
  end.

(** [func (s *Storage) RemoveRefresh(code string) error] *)
Definition RemoveRefresh (code : string) : M (option error) :=
  let* err := Prepare TRefresh in
  match err with
  | Some e => ret (Some e)
  | None => Exec (DeleteRefresh code)
  end.

(** [func (s *Storage) Clone() osin.Storage]: the receiver itself, so that
    a clone works on the same connection. *)
Definition Clone (s : Storage) : Storage := s.

(** [func (s *Storage) Close()]: an empty body. *)
Definition Close : M unit := ret tt.

(** ** Vocabulary of the properties *)

(** The record stored under a key, if the table exists and has one. *)
Definition stored {V} (k : string) (m : option (gmap string V)) : option V :=
  match m with
  | Some m => m !! k
  | None => None
  end.

(** The failure waiting for the next call to the driver, and the store once
    that call has been made. *)
Definition pending (s : Storage) : option error :=
  match faults s with
  | f :: _ => f
  | [] => None
  end.

Definition called (s : Storage) : Storage := mkStorage (db s) (tail (faults s)).

(** The columns that [SaveAccess] writes for a grant whose client and
    authorization are present. *)
Definition columns (d : AccessData.t) : option access_row :=
  match AccessData.Client d, AccessData.AuthorizeData d with
  | Some c, Some a =>
      Some (mkAccessRow (GetId c) (AuthorizeData.Code a)
              (match AccessData.AccessData d with
               | Some p => AccessData.AccessToken p
               | None => ""
               end)
              (AccessData.RefreshToken d) (AccessData.ExpiresIn d)
              (AccessData.Scope d) (AccessData.RedirectUri d)
              (AccessData.CreatedAt d))
  | _, _ => None
  end.

Definition client_of (id : string) (r : client_row) : DefaultClient :=
  mkDefaultClient id (c_secret r) (c_redirect_uri r) None.

Definition authorize_of (code : string) (r : authorize_row)
    (c : option DefaultClient) : AuthorizeData.t :=
  AuthorizeData.mk c code (au_expires_in r) (au_scope r) (au_redirect_uri r)
    (au_state r) (au_created_at r).

(** A row of the access table resolves when its client, its authorization
    code and the client of that code are stored. *)
Definition resolves (d : DB) (row : access_row) : bool :=
  match stored (ac_client row) (client d) with
  | Some _ =>
      match stored (ac_authorize row) (authorize d) with
      | Some r =>
          match stored (au_client r) (client d) with
          | Some _ => true
          | None => false
          end
      | None => false
      end
  | None => false
  end.

(** The grant that a load builds from a row that resolves, given the
    predecessor that was loaded for it. *)
Definition grant_of (d : DB) (code : string) (row : access_row)
    (prev : option AccessData.t) : AccessData.t :=
  AccessData.mk
    (client_of (ac_client row) <$> stored (ac_client row) (client d))
    ((fun r => authorize_of (ac_authorize row) r
                 (client_of (au_client r) <$> stored (au_client r) (client d)))
       <$> stored (ac_authorize row) (authorize d))
    prev code (ac_refresh_token row) (ac_expires_in row) (ac_scope row)
    (ac_redirect_uri row) (ac_created_at row).

(** The client and the authorization code that a grant names are stored,
    and so is the client of that code. *)
Definition resolvable (d : DB) (g : AccessData.t) : bool :=
  match columns g with
  | Some row => resolves d row
  | None => false
  end.

(** What a successful [SaveAccess] leaves: the row of the grant under its
    token, in a table that had none, and, when the grant has a refresh
    token, the refresh row under that token, in a table that had none. *)
Definition committed (data : AccessData.t) (d d' : DB) : Prop :=
  exists row acc,
    columns data = Some row /\
    access d = Some acc /\ acc !! AccessData.AccessToken data = None /\
    access d' = Some (<[AccessData.AccessToken data := row]> acc) /\
    client d' = client d /\ authorize d' = authorize d /\
    if nonempty (AccessData.RefreshToken data)
    then exists rf,
           refresh d = Some rf /\ rf !! AccessData.RefreshToken data = None /\
           refresh d' = Some (<[AccessData.RefreshToken data :=
                                  AccessData.AccessToken data]> rf)
    else refresh d' = refresh d.

(** The error that reaches the caller when a statement has failed with [e]
    and the rollback has returned [rb]. *)
Definition surfaced (e : error) (rb : option error) : error :=
  match rb with
  | Some r => r
  | None => e
  end.


(** *** Lineage *)

Section Lineage.

Variable d : DB.

(** The tokens that a load visits from [tok] on: [tok] alone when it has
    no row or its row names no previous token, [tok] followed by the
    lineage of the previous token otherwise.  A lineage is a finite list,
    and it has no token twice ([lineage_NoDup]). *)
Inductive lineage : string -> list string -> Prop :=
  | lineage_last tok :
      (forall row, stored tok (access d) = Some row -> ac_previous row = "") ->
      lineage tok [tok]
  | lineage_cons tok row l :
      stored tok (access d) = Some row ->
      ac_previous row <> "" ->
      lineage (ac_previous row) l ->
      lineage tok (tok :: l).

(** The token reached after [n] hops along the previous tokens. *)
Fixpoint follow (n : nat) (tok : string) : option string :=
  match n with
  | O => Some tok
  | S n =>
      match stored tok (access d) with
      | Some row =>
          if nonempty (ac_previous row) then follow n (ac_previous row)
          else None
      | None => None
      end
  end.

(** The hops from [tok] lead to a token from which some hops lead back to
    itself. *)
Definition cyclic (tok : string) : Prop :=
  exists k p t, follow k tok = Some t /\ follow (S p) t = Some t.

(** Every row met along the hops from [tok] resolves. *)
Definition resolves_along (tok : string) : Prop :=
  forall k t row,
    follow k tok = Some t -> stored t (access d) = Some row ->
    resolves d row = true.

End Lineage.

(** *** Sample stores *)

(** A server without tables, and the store once [CreateSchemas] has run on
    it over a healthy connection. *)
Definition empty_store : Storage := mkStorage (mkDB None None None None) [].

Definition initial_store : Storage :=
  mkStorage (mkDB (Some ∅) (Some ∅) (Some ∅) (Some ∅)) [].

(** The store that a call leaves. *)
Definition after {A} (m : M A) (s : Storage) : Storage :=
  match m s with
  | Done _ s' => s'
  | Panic s' => s'
  | Diverge => s
  end.

Definition with_faults (s : Storage) (fs : list (option error)) : Storage :=
  mkStorage (db s) fs.

Definition ghost_client : DefaultClient := mkDefaultClient "ghost" "s3cret" "http://cb" None.

Definition blank_client : DefaultClient := mkDefaultClient "" "s3cret" "http://cb" None.

Definition blank_authorize : AuthorizeData.t :=
  AuthorizeData.mk (Some blank_client) "" 600 "" "" "" 0.

(** A store whose client and authorization code both have the empty string
    as their key, and whose access table is empty. *)
Definition blank_store : Storage :=
  mkStorage
    (mkDB (Some {[ "" := mkClientRow "s3cret" "http://cb" ]})
          (Some {[ "" := mkAuthorizeRow "" 600 "" "" "" 0 ]})
          (Some ∅) (Some ∅)) [].

Definition sample_client : DefaultClient :=
  mkDefaultClient "app" "s3cret" "http://cb" None.

Definition sample_authorize : AuthorizeData.t :=
  AuthorizeData.mk (Some sample_client) "code1" 600 "read" "http://cb" "xyz"
    1700000000.

(** The initialised store with one client and one authorization code. *)
Definition sample_store : Storage :=
  mkStorage
    (mkDB (Some {[ "app" := mkClientRow "s3cret" "http://cb" ]})
          (Some {[ "code1" := mkAuthorizeRow "app" 600 "read" "http://cb" "xyz"
                                1700000000 ]})
          (Some ∅) (Some ∅)) [].

(** A first grant, and the grant that a refresh puts in front of it. *)
Definition grant_A : AccessData.t :=
  AccessData.mk (Some sample_client) (Some sample_authorize) None
    "tokA" "refA" 3600 "read" "http://cb" 1700000100.

Definition grant_B : AccessData.t :=
  AccessData.mk (Some sample_client) (Some sample_authorize) (Some grant_A)
    "tokB" "refB" 3600 "read" "http://cb" 1700003700.

Definition store_A : Storage := after (SaveAccess grant_A) sample_store.
Definition store_AB : Storage := after (SaveAccess grant_B) store_A.

(** A grant whose predecessor carries the grant's own token. *)
Definition grant_loop : AccessData.t :=
  AccessData.mk (Some sample_client) (Some sample_authorize)
    (Some (AccessData.mk None None None "tokL" "" 0 "" "" 0))
    "tokL" "" 3600 "read" "http://cb" 1700000100.

Definition store_loop : Storage := after (SaveAccess grant_loop) sample_store.

(** Tokens ["t"], ["tt"], ["ttt"], ... *)
Fixpoint token (k : nat) : string :=
  match k with
  | O => "t"
  | S k => String "t"%char (token k)
  end.

(** Grant [k] of a rotation: its predecessor is grant [k - 1]. *)
Fixpoint chain_grant (k : nat) : AccessData.t :=
  AccessData.mk (Some sample_client) (Some sample_authorize)
    (match k with
     | O => None
     | S j => Some (chain_grant j)
     end)
    (token k) "" 3600 "read" "http://cb" 1700000100.

Definition chain_row (k : nat) : access_row :=
  mkAccessRow "app" "code1"
    (match k with
     | O => ""
     | S j => token j
     end)
    "" 3600 "read" "http://cb" 1700000100.

Fixpoint chain_rows (n : nat) : gmap string access_row :=
  match n with
  | O => {[ token 0 := chain_row 0 ]}
  | S n => <[ token (S n) := chain_row (S n) ]> (chain_rows n)
  end.

(** The sample store with the grants [0] to [n] of the rotation. *)
Definition chain_store (n : nat) : Storage :=
  mkStorage
    (mkDB (client (db sample_store)) (authorize (db sample_store))
          (Some (chain_rows n)) (Some ∅)) [].

(** *** Tables that are kept *)

(** Every table of [d] is a table of [d'] with the same rows. *)
Definition keeps (d d' : DB) : Prop :=
  (forall m, client d = Some m -> client d' = Some m) /\
  (forall m, authorize d = Some m -> authorize d' = Some m) /\
  (forall m, access d = Some m -> access d' = Some m) /\
  (forall m, refresh d = Some m -> refresh d' = Some m).

Definition is_create (q : statement) : bool :=
  match q with
  | CreateTable _ _ => true
  | _ => false
  end.

(** ** Facts that the proofs share *)

Lemma next_fault_spec s : next_fault s = Done (pending s) (called s).
Proof. destruct s as [d [|f fs]]; reflexivity. Qed.

Lemma nonempty_true x : nonempty x = true <-> x <> "".
Proof.
  unfold nonempty. rewrite negb_true_iff. split.
  - intros H ->. discriminate.
  - intros H. apply String.eqb_neq. exact H.
Qed.

Lemma nonempty_false x : nonempty x = false <-> x = "".
Proof.
  unfold nonempty. rewrite negb_false_iff. apply String.eqb_eq.
Qed.

Lemma Exec_spec q s :
  Exec q s =
    match pending s with
    | Some e => Done (Some e) (called s)
    | None =>
        match run q (db s) with
        | inl d => Done None (mkStorage d (tail (faults s)))
        | inr e => Done (Some e) (called s)
        end
    end.
Proof.
  unfold Exec, bind. rewrite next_fault_spec.
  destruct (pending s); [reflexivity|]. simpl. reflexivity.
Qed.

Lemma QueryRow_spec {V} (q : DB -> V + error) s :
  QueryRow q s =
    Done (match pending s with Some e => inr e | None => q (db s) end)
         (called s).
Proof.
  unfold QueryRow, bind. rewrite next_fault_spec.
  destruct (pending s); reflexivity.
Qed.

Lemma GetClient_spec id s :
  GetClient id s =
    match pending s with
    | Some e => Done (None, Some e) (called s)
    | None =>
        match select TClient id (client (db s)) with
        | inl r =>
            Done (Some (mkDefaultClient id (c_secret r) (c_redirect_uri r) None),
                  None) (called s)
        | inr e => Done (None, Some e) (called s)
        end
    end.
Proof.
  unfold GetClient, bind. rewrite QueryRow_spec.
  destruct (pending s); [reflexivity|].
  destruct (select TClient id (client (db s))); reflexivity.
Qed.

Lemma select_stored {V} t k (m : option (gmap string V)) v :
  stored k m = Some v -> select t k m = inl v.
Proof.
  destruct m as [m|]; simpl; [|discriminate]. intros ->. reflexivity.
Qed.

Lemma select_missing {V} t k (m : gmap string V) :
  m !! k = None -> select t k (Some m) = inr ErrNoRows.
Proof. simpl. intros ->. reflexivity. Qed.

(** ** Schema creation *)

Lemma CreateSchemas_fresh : CreateSchemas empty_store = Done None initial_store.
Proof. vm_compute. reflexivity. Qed.

(** On any store that already has the client table, and over a connection
    whose next call goes through, the first statement is refused. *)
Lemma CreateSchemas_client_exists s :
  is_Some (client (db s)) -> pending s = None ->
  CreateSchemas s = Done (Some (DuplicateTable TClient)) (called s).
Proof.
  intros [m Hm] Hp. unfold CreateSchemas, schemas. simpl. unfold bind.
  rewrite Exec_spec, Hp. simpl. rewrite Hm. reflexivity.
Qed.

(** C5: [CreateSchemas] is meant to be safe on an initialised store.  The
    code is not: run on the empty server it succeeds and leaves the four
    tables, and run again on that store it returns the duplicate-table error
    of the client table, whose statement alone lacks [IF NOT EXISTS]. *)
Theorem CreateSchemas_second_run_fails :
  CreateSchemas empty_store = Done None initial_store /\
  CreateSchemas initial_store = Done (Some (DuplicateTable TClient)) initial_store.
Proof. split; vm_compute; reflexivity. Qed.

(** ** Clients *)

(** C6, as stated, fails: on the initialised store, which has no client
    record at all, [UpdateClient] returns a client and no error. *)
Lemma UpdateClient_absent_no_error :
  stored "ghost" (client (db initial_store)) = None /\
  UpdateClient "ghost" "s3cret" "http://cb" initial_store
    = Done (Some ghost_client, None) initial_store.
Proof. split; vm_compute; reflexivity. Qed.

(** C6, amended: for a client id without a record, in an existing client
    table and with a call that goes through, [UpdateClient] returns the
    client built from its arguments and no error, and the tables are as
    they were. *)
Theorem UpdateClient_absent_succeeds s m id secret redirectURI :
  client (db s) = Some m -> m !! id = None -> pending s = None ->
  UpdateClient id secret redirectURI s
    = Done (Some (mkDefaultClient id secret redirectURI None), None) (called s).
Proof.
  intros Hm Hid Hp. unfold UpdateClient, bind. rewrite Exec_spec, Hp.
  simpl. rewrite Hm. simpl.
  rewrite alter_id by (intros x Hx; congruence).
  unfold called. destruct s as [[c au ac rf] f]; simpl in *. subst c.
  reflexivity.
Qed.

Lemma UpdateClient_absent_succeeds_witness :
  UpdateClient "ghost" "s3cret" "http://cb" initial_store
    = Done (Some ghost_client, None) (called initial_store).
Proof.
  apply (UpdateClient_absent_succeeds initial_store ∅); reflexivity.
Defined.

(** ** Authorization codes *)

Lemma LoadAuthorize_spec code s :
  LoadAuthorize code s =
    match pending s with
    | Some e => Done (None, Some e) (called s)
    | None =>
        match select TAuthorize code (authorize (db s)) with
        | inr e => Done (None, Some e) (called s)
        | inl r =>
            match GetClient (au_client r) (called s) with
            | Done (c, None) s' =>
                Done (Some (AuthorizeData.mk c code (au_expires_in r)
                              (au_scope r) (au_redirect_uri r) (au_state r)
                              (au_created_at r)), None) s'
            | Done (_, Some e) s' => Done (None, Some e) s'
            | Panic s' => Panic s'
            | Diverge => Diverge
            end
        end
    end.
Proof.
  unfold LoadAuthorize, bind. rewrite QueryRow_spec.
  destruct (pending s); [reflexivity|].
  destruct (select TAuthorize code (authorize (db s))) as [r|e]; [|reflexivity].
  simpl. destruct (GetClient (au_client r) (called s)) as [[c [e|]] s'| |];
    reflexivity.
Qed.

(** [GetClient] and [LoadAuthorize] return a value or an error, never both
    and never neither, and leave the tables alone. *)
Lemma GetClient_returns id s :
  exists r s', GetClient id s = Done r s' /\ db s' = db s /\
    ((exists c, r = (Some c, None)) \/ (exists e, r = (None, Some e))).
Proof.
  rewrite GetClient_spec. destruct (pending s).
  - eexists _, _. split; [reflexivity|]. split; [reflexivity|]. right. eauto.
  - destruct (select TClient id (client (db s))).
    + eexists _, _. split; [reflexivity|]. split; [reflexivity|]. left. eauto.
    + eexists _, _. split; [reflexivity|]. split; [reflexivity|]. right. eauto.
Qed.

Lemma LoadAuthorize_returns code s :
  exists r s', LoadAuthorize code s = Done r s' /\ db s' = db s /\
    ((exists a, r = (Some a, None)) \/ (exists e, r = (None, Some e))).
Proof.
  rewrite LoadAuthorize_spec. destruct (pending s).
  - eexists _, _. split; [reflexivity|]. split; [reflexivity|]. right. eauto.
  - destruct (select TAuthorize code (authorize (db s))) as [r|e].
    + destruct (GetClient_returns (au_client r) (called s))
        as (x & s' & -> & Hdb & [[c ->]|[e ->]]).
      * eexists _, _. split; [reflexivity|]. split; [exact Hdb|]. left. eauto.
      * eexists _, _. split; [reflexivity|]. split; [exact Hdb|]. right. eauto.
    + eexists _, _. split; [reflexivity|]. split; [reflexivity|]. right. eauto.
Qed.

Lemma RemoveAuthorize_removes code s s' :
  RemoveAuthorize code s = Done None s' ->
  stored code (authorize (db s')) = None /\
  client (db s') = client (db s) /\ access (db s') = access (db s) /\
  refresh (db s') = refresh (db s).
Proof.
  unfold RemoveAuthorize. rewrite Exec_spec.
  destruct (pending s); [discriminate|]. simpl.
  destruct (authorize (db s)) as [m|]; simpl; [|discriminate].
  intros [= <-]. simpl. rewrite lookup_delete_eq. auto.
Qed.

(** ** Access grants: loading *)

Lemma LoadAccess_unfold fuel code s :
  LoadAccess (S fuel) code s =
    let row :=
      match pending s with
      | Some e => inr e
      | None =>
          match select TAccess code (access (db s)) with
          | inl r =>
              inl (ac_client r, ac_authorize r, ac_previous r,
                   AccessData.mk None None None code (ac_refresh_token r)
                     (ac_expires_in r) (ac_scope r) (ac_redirect_uri r)
                     (ac_created_at r))
          | inr e => inr e
          end
      end in
    let '((cid, authorizeCode, prevAccessToken, result), _) :=
      Scan row ("", "", "", AccessData.zero) in
    match GetClient cid (called s) with
    | Done (client, None) s1 =>
        match LoadAuthorize authorizeCode s1 with
        | Done (authorize, None) s2 =>
            let fill prev :=
              AccessData.mk client authorize prev
                (AccessData.AccessToken result) (AccessData.RefreshToken result)
                (AccessData.ExpiresIn result) (AccessData.Scope result)
                (AccessData.RedirectUri result) (AccessData.CreatedAt result) in
            if nonempty prevAccessToken
            then
              match LoadAccess fuel prevAccessToken s2 with
              | Done (prevAccess, None) s3 => Done (Some (fill prevAccess), None) s3
              | Done (_, Some e) s3 => Done (None, Some e) s3
              | Panic s3 => Panic s3
              | Diverge => Diverge
              end
            else Done (Some (fill None), None) s2
        | Done (_, Some e) s2 => Done (None, Some e) s2
        | Panic s2 => Panic s2
        | Diverge => Diverge
        end
    | Done (_, Some e) s1 => Done (None, Some e) s1
    | Panic s1 => Panic s1
    | Diverge => Diverge
    end.
Proof.
  cbn [LoadAccess]. unfold bind at 1. rewrite QueryRow_spec.
  cbv zeta.
  destruct (Scan _ _) as [[[[cid authorizeCode] prevAccessToken] result] err0].
  unfold bind at 1.
  destruct (GetClient cid (called s)) as [[c [e|]] s1| |]; try reflexivity.
  unfold bind at 1.
  destruct (LoadAuthorize authorizeCode s1) as [[a [e|]] s2| |]; try reflexivity.
  destruct (nonempty prevAccessToken); [|reflexivity].
  unfold bind.
  destruct (LoadAccess fuel prevAccessToken s2) as [[p [e|]] s3| |]; reflexivity.
Qed.

(** [LoadAccess] never panics; when it returns it returns a grant or an
    error, never both and never neither, and the tables are as they were. *)
Lemma LoadAccess_returns fuel : forall code s,
  LoadAccess fuel code s = Diverge \/
  exists r s', LoadAccess fuel code s = Done r s' /\ db s' = db s /\
    ((exists g, r = (Some g, None)) \/ (exists e, r = (None, Some e))).
Proof.
  induction fuel as [|fuel IH]; intros code s; [left; reflexivity|].
  rewrite LoadAccess_unfold. cbv zeta.
  destruct (Scan _ _) as [[[[cid authorizeCode] prevAccessToken] result] err0].
  destruct (GetClient_returns cid (called s))
    as (x & s1 & -> & Hdb1 & [[c ->]|[e ->]]);
    [|right; eexists _, _; split; [reflexivity|]; split; [exact Hdb1|];
      right; eauto].
  destruct (LoadAuthorize_returns authorizeCode s1)
    as (y & s2 & -> & Hdb2 & [[a ->]|[e ->]]);
    [|right; eexists _, _; split; [reflexivity|];
      split; [simpl in *; congruence|]; right; eauto].
  destruct (nonempty prevAccessToken).
  - destruct (IH prevAccessToken s2)
      as [->|(z & s3 & -> & Hdb3 & [[g ->]|[e ->]])].
    + left; reflexivity.
    + right. eexists _, _. split; [reflexivity|].
      split; [simpl in *; congruence|]. left; eauto.
    + right. eexists _, _. split; [reflexivity|].
      split; [simpl in *; congruence|]. right; eauto.
  - right. eexists _, _. split; [reflexivity|].
    split; [simpl in *; congruence|]. left; eauto.
Qed.

(** Over a healthy connection. *)
Lemma healthy_called s : faults s = [] -> called s = s /\ pending s = None.
Proof. destruct s as [d f]; simpl. intros ->. split; reflexivity. Qed.

Lemma GetClient_found s id r :
  faults s = [] -> stored id (client (db s)) = Some r ->
  GetClient id s = Done (Some (client_of id r), None) s.
Proof.
  intros Hf Hr. destruct (healthy_called s Hf) as [Hc Hp].
  rewrite GetClient_spec, Hp, Hc, (select_stored _ _ _ _ Hr). reflexivity.
Qed.

Lemma GetClient_absent s id :
  faults s = [] -> stored id (client (db s)) = None ->
  exists e, GetClient id s = Done (None, Some e) s.
Proof.
  intros Hf Hr. destruct (healthy_called s Hf) as [Hc Hp].
  rewrite GetClient_spec, Hp, Hc.
  destruct (client (db s)) as [m|]; simpl in *; [rewrite Hr|]; eauto.
Qed.

Lemma LoadAuthorize_found s code r c :
  faults s = [] -> stored code (authorize (db s)) = Some r ->
  stored (au_client r) (client (db s)) = Some c ->
  LoadAuthorize code s
    = Done (Some (authorize_of code r (Some (client_of (au_client r) c))), None) s.
Proof.
  intros Hf Hr Hcl. destruct (healthy_called s Hf) as [Hc Hp].
  rewrite LoadAuthorize_spec, Hp, Hc, (select_stored _ _ _ _ Hr).
  rewrite (GetClient_found s _ c Hf Hcl). reflexivity.
Qed.

(** One step of a load over a healthy connection, on a row that resolves. *)
Lemma LoadAccess_step fuel code s row :
  faults s = [] -> stored code (access (db s)) = Some row ->
  resolves (db s) row = true ->
  LoadAccess (S fuel) code s =
    if nonempty (ac_previous row)
    then
      match LoadAccess fuel (ac_previous row) s with
      | Done (prevAccess, None) s3 =>
          Done (Some (grant_of (db s) code row prevAccess), None) s3
      | Done (_, Some e) s3 => Done (None, Some e) s3
      | Panic s3 => Panic s3
      | Diverge => Diverge
      end
    else Done (Some (grant_of (db s) code row None), None) s.
Proof.
  intros Hf Hrow Hres. destruct (healthy_called s Hf) as [Hc Hp].
  rewrite LoadAccess_unfold, Hp, Hc, (select_stored _ _ _ _ Hrow). simpl.
  unfold resolves in Hres.
  destruct (stored (ac_client row) (client (db s))) as [c|] eqn:Ec;
    [|discriminate].
  destruct (stored (ac_authorize row) (authorize (db s))) as [r|] eqn:Er;
    [|discriminate].
  destruct (stored (au_client r) (client (db s))) as [c'|] eqn:Ec';
    [|discriminate].
  rewrite (GetClient_found s _ c Hf Ec).
  rewrite (LoadAuthorize_found s _ r c' Hf Er Ec').
  unfold grant_of. rewrite Ec, Er. simpl. rewrite Ec'. simpl.
  destruct (nonempty (ac_previous row)); [|reflexivity].
  destruct (LoadAccess fuel (ac_previous row) s) as [[p [e|]] s3| |];
    reflexivity.
Qed.

(** *** Loading a token that has no row *)

(** The functions of this file produce that store. *)
Lemma blank_store_reachable :
  exists s1,
    CreateClient "" "s3cret" "http://cb" initial_store
      = Done (Some blank_client, None) s1 /\
    SaveAuthorize blank_authorize s1 = Done None blank_store.
Proof. eexists. split; vm_compute; reflexivity. Qed.

(** C7: a token without a row must give an error and no grant.  On
    [blank_store] the code returns a grant and no error: the scan fails,
    its error is dropped, and the empty client id and authorization code
    that the failed scan left behind are looked up and found.  The grant
    has an empty token although it was asked for ["missing"]. *)
Theorem LoadAccess_missing_row_returns_grant :
  stored "missing" (access (db blank_store)) = None /\
  LoadAccess 1 "missing" blank_store
    = Done (Some (AccessData.mk (Some blank_client) (Some blank_authorize)
                    None "" "" 0 "" "" 0), None) blank_store.
Proof. split; vm_compute; reflexivity. Qed.

(** Where no client has the empty id, the lookup of that id fails and the
    load of a token without a row ends in an error after all. *)
Lemma LoadAccess_missing_row_no_blank_client fuel code s :
  faults s = [] -> stored code (access (db s)) = None ->
  stored "" (client (db s)) = None ->
  exists e, LoadAccess (S fuel) code s = Done (None, Some e) s.
Proof.
  intros Hf Hrow Hblank. destruct (healthy_called s Hf) as [Hc Hp].
  rewrite LoadAccess_unfold, Hp, Hc.
  assert (exists e, select TAccess code (access (db s)) = inr e) as [e ->].
  { destruct (access (db s)) as [m|]; simpl in *; [rewrite Hrow|]; eauto. }
  simpl. destruct (GetClient_absent s "" Hf Hblank) as [e' ->]. eauto.
Qed.

(** *** Dangling references *)

Lemma LoadAccess_dangling_code fuel code s row :
  pending s = None -> stored code (access (db s)) = Some row ->
  stored (ac_authorize row) (authorize (db s)) = None ->
  exists e s', LoadAccess (S fuel) code s = Done (None, Some e) s' /\
               db s' = db s.
Proof.
  intros Hp Hrow Hcode.
  rewrite LoadAccess_unfold, Hp, (select_stored _ _ _ _ Hrow). simpl.
  destruct (GetClient_returns (ac_client row) (called s))
    as (x & s1 & -> & Hdb1 & [[c ->]|[e ->]]); [|eauto].
  rewrite LoadAuthorize_spec.
  destruct (pending s1); [eexists _, _; split; [reflexivity|]; exact Hdb1|].
  assert (exists e, select TAuthorize (ac_authorize row) (authorize (db s1)) = inr e)
    as [e ->].
  { rewrite Hdb1. simpl.
    destruct (authorize (db s)) as [m|]; simpl in *; [rewrite Hcode|]; eauto. }
  eexists _, _; split; [reflexivity|]; exact Hdb1.
Qed.

Lemma LoadAuthorize_dangling_client code s r :
  pending s = None -> stored code (authorize (db s)) = Some r ->
  stored (au_client r) (client (db s)) = None ->
  exists e s', LoadAuthorize code s = Done (None, Some e) s' /\ db s' = db s.
Proof.
  intros Hp Hr Hcl.
  rewrite LoadAuthorize_spec, Hp, (select_stored _ _ _ _ Hr).
  rewrite GetClient_spec. destruct (pending (called s)); [eauto|].
  assert (exists e, select TClient (au_client r) (client (db (called s))) = inr e)
    as [e ->].
  { simpl. destruct (client (db s)) as [m|]; simpl in *; [rewrite Hcl|]; eauto. }
  eauto.
Qed.

(** C9: a load that meets a dangling reference fails.  When the
    authorization code of a stored access grant has been removed, the load
    of that grant returns an error and no grant; when the client of a
    stored authorization code has no record, the load of that code returns
    an error and no grant.  The query for the row itself goes through; any
    later call may fail as well, and the result is an error either way. *)
Theorem dangling_reference_fails :
  (forall fuel code s0 s row,
     stored code (access (db s0)) = Some row ->
     RemoveAuthorize (ac_authorize row) s0 = Done None s ->
     pending s = None ->
     exists e s', LoadAccess (S fuel) code s = Done (None, Some e) s') /\
  (forall code s r,
     stored code (authorize (db s)) = Some r ->
     stored (au_client r) (client (db s)) = None ->
     pending s = None ->
     exists e s', LoadAuthorize code s = Done (None, Some e) s').
Proof.
  split.
  - intros fuel code s0 s row Hrow Hrm Hp.
    destruct (RemoveAuthorize_removes _ _ _ Hrm) as (Hgone & _ & Hacc & _).
    destruct (LoadAccess_dangling_code fuel code s row Hp) as (e & s' & H & _);
      [rewrite Hacc; exact Hrow|exact Hgone|eauto].
  - intros code s r Hr Hcl Hp.
    destruct (LoadAuthorize_dangling_client code s r Hp Hr Hcl)
      as (e & s' & H & _). eauto.
Qed.

(** ** Access grants: saving *)

Lemma Begin_spec s :
  Begin s =
    Done (match pending s with Some e => inr e | None => inl (mkTx (db s)) end)
         (called s).
Proof.
  unfold Begin, bind. rewrite next_fault_spec.
  destruct (pending s); reflexivity.
Qed.

Lemma TxExec_spec tx q s :
  TxExec tx q s =
    Done (match pending s with
          | Some e => (tx, Some e)
          | None =>
              match run q (work tx) with
              | inl d => (mkTx d, None)
              | inr e => (tx, Some e)
              end
          end) (called s).
Proof.
  unfold TxExec, bind. rewrite next_fault_spec.
  destruct (pending s); [reflexivity|].
  destruct (run q (work tx)); reflexivity.
Qed.

Lemma Rollback_spec tx s : Rollback tx s = Done (pending s) (called s).
Proof. apply next_fault_spec. Qed.

Lemma Commit_spec tx s :
  Commit tx s =
    match pending s with
    | Some e => Done (Some e) (called s)
    | None => Done None (mkStorage (work tx) (tail (faults s)))
    end.
Proof.
  unfold Commit, bind. rewrite next_fault_spec.
  destruct (pending s); reflexivity.
Qed.

(** [saveRefresh] returns; the tables of the server are as they were; when
    it returns no error the transaction holds the new refresh row. *)
Lemma saveRefresh_cases tx token tok s :
  exists tx' err s',
    saveRefresh tx token tok s = Done (tx', err) s' /\ db s' = db s /\
    (err = None ->
     exists rf,
       refresh (work tx) = Some rf /\ rf !! token = None /\
       work tx' = mkDB (client (work tx)) (authorize (work tx))
                    (access (work tx)) (Some (<[token := tok]> rf))).
Proof.
  unfold saveRefresh, bind. rewrite TxExec_spec.
  destruct (pending s) as [e|].
  - rewrite Rollback_spec.
    destruct (pending (called s)); eexists _, _, _;
      (split; [reflexivity|]; split; [reflexivity|]; discriminate).
  - simpl. destruct (refresh (work tx)) as [rf|] eqn:Erf; simpl.
    + destruct (rf !! token) eqn:Etok.
      * rewrite Rollback_spec.
        destruct (pending (called s)); eexists _, _, _;
          (split; [reflexivity|]; split; [reflexivity|]; discriminate).
      * eexists _, _, _. split; [reflexivity|]. split; [reflexivity|].
        intros _. exists rf. auto.
    + rewrite Rollback_spec.
      destruct (pending (called s)); eexists _, _, _;
        (split; [reflexivity|]; split; [reflexivity|]; discriminate).
Qed.

Lemma SaveAccess_cases data s :
  match SaveAccess data s with
  | Done None s' => committed data (db s) (db s')
  | Done (Some _) s' => db s' = db s
  | Panic s' =>
      db s' = db s /\
      (AccessData.Client data = None \/ AccessData.AuthorizeData data = None)
  | Diverge => False
  end.
Proof.
  unfold SaveAccess, bind at 1. rewrite Begin_spec.
  destruct (pending s) as [e0|]; [reflexivity|].
  unfold bind at 1.
  assert (exists tx err s1,
    (if nonempty (AccessData.RefreshToken data)
     then saveRefresh (mkTx (db s)) (AccessData.RefreshToken data)
            (AccessData.AccessToken data)
     else ret (mkTx (db s), None)) (called s) = Done (tx, err) s1 /\
    db s1 = db s /\
    (err = None ->
     client (work tx) = client (db s) /\
     authorize (work tx) = authorize (db s) /\
     access (work tx) = access (db s) /\
     if nonempty (AccessData.RefreshToken data)
     then exists rf,
            refresh (db s) = Some rf /\
            rf !! AccessData.RefreshToken data = None /\
            refresh (work tx) = Some (<[AccessData.RefreshToken data :=
                                         AccessData.AccessToken data]> rf)
     else refresh (work tx) = refresh (db s)))
    as (tx & err & s1 & -> & Hdb1 & Htx).
  { destruct (nonempty (AccessData.RefreshToken data)).
    - destruct (saveRefresh_cases (mkTx (db s)) (AccessData.RefreshToken data)
                  (AccessData.AccessToken data) (called s))
        as (tx & err & s1 & -> & Hdb & Hok).
      exists tx, err, s1. split; [reflexivity|]. split; [exact Hdb|].
      intros Herr. destruct (Hok Herr) as (rf & Hrf & Hnone & ->).
      simpl. repeat split. eauto.
    - eexists _, _, _. split; [reflexivity|]. split; [reflexivity|].
      intros _. simpl. auto. }
  destruct err as [e|]; [exact Hdb1|].
  destruct (Htx eq_refl) as (Hcl & Hau & Hac & Hrf). clear Htx.
  unfold committed, columns.
  destruct (AccessData.Client data) as [c|]; [|simpl; auto].
  destruct (AccessData.AuthorizeData data) as [a|]; [|simpl; auto].
  unfold bind. rewrite TxExec_spec.
  destruct (pending s1) as [e|].
  { rewrite Rollback_spec. simpl. destruct (pending (called s1)); exact Hdb1. }
  simpl. rewrite Hac.
  destruct (access (db s)) as [acc|] eqn:Eacc; simpl.
  2:{ rewrite Rollback_spec. simpl. destruct (pending (called s1)); exact Hdb1. }
  destruct (acc !! AccessData.AccessToken data) eqn:Etok.
  { rewrite Rollback_spec. simpl. destruct (pending (called s1)); exact Hdb1. }
  rewrite Commit_spec. simpl.
  destruct (pending (called s1)); [exact Hdb1|]. simpl.
  eexists _, acc. split; [reflexivity|]. split; [reflexivity|].
  split; [exact Etok|]. split; [reflexivity|].
  split; [exact Hcl|]. split; [exact Hau|]. exact Hrf.
Qed.

Lemma sample_store_reachable :
  exists s1,
    CreateClient "app" "s3cret" "http://cb" initial_store
      = Done (Some sample_client, None) s1 /\
    SaveAuthorize sample_authorize s1 = Done None sample_store.
Proof. eexists. split; vm_compute; reflexivity. Qed.

(** *** Atomicity *)

(** C1: [SaveAccess] of a grant with a refresh token either returns no
    error, and then the access row is stored under the access token and the
    refresh row under the refresh token, pointing at that access token; or
    it does not, and then every table is what it was before the call, so
    that a token without an access row before the call has none after it.
    This holds whichever call to the driver fails: the begin, either insert,
    the rollback or the commit. *)
Theorem SaveAccess_atomic data s :
  AccessData.RefreshToken data <> "" ->
  (exists s' row,
     SaveAccess data s = Done None s' /\
     columns data = Some row /\
     stored (AccessData.AccessToken data) (access (db s')) = Some row /\
     stored (AccessData.RefreshToken data) (refresh (db s'))
       = Some (AccessData.AccessToken data)) \/
  (exists s',
     (SaveAccess data s = Panic s' \/
      exists e, SaveAccess data s = Done (Some e) s') /\
     db s' = db s /\
     (stored (AccessData.AccessToken data) (access (db s)) = None ->
      stored (AccessData.AccessToken data) (access (db s')) = None)).
Proof.
  intros Hrt. apply nonempty_true in Hrt.
  pose proof (SaveAccess_cases data s) as H.
  destruct (SaveAccess data s) as [[e|] s'|s'|].
  - right. exists s'. split; [right; eauto|]. split; [exact H|].
    rewrite H. auto.
  - left. destruct H as (row & acc & Hcol & _ & _ & Hacc & _ & _ & Hrf).
    rewrite Hrt in Hrf. destruct Hrf as (rf & _ & _ & Hrf).
    exists s', row. split; [reflexivity|]. split; [exact Hcol|].
    rewrite Hacc, Hrf. simpl. rewrite !lookup_insert_eq. auto.
  - right. exists s'. destruct H as [H _]. split; [left; reflexivity|].
    split; [exact H|]. rewrite H. auto.
  - destruct H.
Qed.

Lemma SaveAccess_atomic_witness :
  (exists s' row,
     SaveAccess grant_A sample_store = Done None s' /\
     columns grant_A = Some row /\
     stored "tokA" (access (db s')) = Some row /\
     stored "refA" (refresh (db s')) = Some "tokA") \/
  (exists s',
     (SaveAccess grant_A sample_store = Panic s' \/
      exists e, SaveAccess grant_A sample_store = Done (Some e) s') /\
     db s' = db sample_store /\
     (stored "tokA" (access (db sample_store)) = None ->
      stored "tokA" (access (db s')) = None)).
Proof.
  apply (SaveAccess_atomic grant_A sample_store). discriminate.
Defined.

(** The two sides of the alternative, on the sample store: the save goes
    through on a healthy connection, and leaves nothing when the insert of
    the refresh row is made to fail. *)
Lemma SaveAccess_sample_commits :
  SaveAccess grant_A sample_store = Done None store_A /\
  stored "tokA" (access (db store_A)) = columns grant_A /\
  stored "refA" (refresh (db store_A)) = Some "tokA".
Proof. repeat split; vm_compute; reflexivity. Qed.

Lemma SaveAccess_sample_refresh_fails :
  SaveAccess grant_A (with_faults sample_store [None; Some (DriverFault 1)])
    = Done (Some (DriverFault 1)) sample_store /\
  stored "tokA" (access (db sample_store)) = None.
Proof. split; vm_compute; reflexivity. Qed.

(** *** Errors of the rollback *)

(** C4, as stated, fails: the insert of the refresh row fails with one
    error or with another, the rollback fails, and the caller receives the
    same single error, that of the rollback, and the same store both
    times; nothing tells the two triggering errors apart. *)
Lemma SaveAccess_triggering_error_lost :
  SaveAccess grant_A
    (with_faults sample_store [None; Some (DriverFault 1); Some (DriverFault 2)])
    = Done (Some (DriverFault 2)) sample_store /\
  SaveAccess grant_A
    (with_faults sample_store [None; Some (DriverFault 3); Some (DriverFault 2)])
    = Done (Some (DriverFault 2)) sample_store.
Proof. split; vm_compute; reflexivity. Qed.

(** C4, amended: when a statement of the unit fails and the rollback fails
    too, [SaveAccess] returns the error of the rollback alone; when the
    rollback succeeds it returns the error of the statement.  This is so
    for the insert of the refresh row and for the insert of the access row,
    with or without a refresh row written before it, whether the statement
    fails in the driver or on the primary key. *)
Theorem SaveAccess_rollback_error_surfaces data d rb fs :
  (forall e,
     nonempty (AccessData.RefreshToken data) = true ->
     SaveAccess data (mkStorage d (None :: Some e :: rb :: fs))
       = Done (Some (surfaced e rb)) (mkStorage d fs)) /\
  (forall rf x,
     nonempty (AccessData.RefreshToken data) = true ->
     refresh d = Some rf -> rf !! AccessData.RefreshToken data = Some x ->
     SaveAccess data (mkStorage d (None :: None :: rb :: fs))
       = Done (Some (surfaced (UniqueViolation "refresh_pk") rb))
           (mkStorage d fs)) /\
  (forall e,
     nonempty (AccessData.RefreshToken data) = false ->
     is_Some (AccessData.Client data) ->
     is_Some (AccessData.AuthorizeData data) ->
     SaveAccess data (mkStorage d (None :: Some e :: rb :: fs))
       = Done (Some (surfaced e rb)) (mkStorage d fs)) /\
  (forall acc x,
     nonempty (AccessData.RefreshToken data) = false ->
     is_Some (AccessData.Client data) ->
     is_Some (AccessData.AuthorizeData data) ->
     access d = Some acc -> acc !! AccessData.AccessToken data = Some x ->
     SaveAccess data (mkStorage d (None :: None :: rb :: fs))
       = Done (Some (surfaced (UniqueViolation "access_pk") rb))
           (mkStorage d fs)) /\
  (forall rf e,
     nonempty (AccessData.RefreshToken data) = true ->
     is_Some (AccessData.Client data) ->
     is_Some (AccessData.AuthorizeData data) ->
     refresh d = Some rf -> rf !! AccessData.RefreshToken data = None ->
     SaveAccess data (mkStorage d (None :: None :: Some e :: rb :: fs))
       = Done (Some (surfaced e rb)) (mkStorage d fs)) /\
  (forall rf acc x,
     nonempty (AccessData.RefreshToken data) = true ->
     is_Some (AccessData.Client data) ->
     is_Some (AccessData.AuthorizeData data) ->
     refresh d = Some rf -> rf !! AccessData.RefreshToken data = None ->
     access d = Some acc -> acc !! AccessData.AccessToken data = Some x ->
     SaveAccess data (mkStorage d (None :: None :: None :: rb :: fs))
       = Done (Some (surfaced (UniqueViolation "access_pk") rb))
           (mkStorage d fs)).
Proof.
  repeat split.
  - intros e Hrt. unfold SaveAccess, saveRefresh, bind, Begin, TxExec,
      Rollback, next_fault, ret. simpl. rewrite Hrt. simpl.
    destruct rb; reflexivity.
  - intros rf x Hrt Hrf Hx. unfold SaveAccess, saveRefresh, bind, Begin,
      TxExec, Rollback, next_fault, ret. simpl. rewrite Hrt. simpl.
    rewrite Hrf. simpl. rewrite Hx. simpl. destruct rb; reflexivity.
  - intros e Hrt [c Hc] [a Ha]. unfold SaveAccess, bind, Begin, TxExec,
      Rollback, next_fault, ret. simpl. rewrite Hrt, Hc, Ha. simpl.
    destruct rb; reflexivity.
  - intros acc x Hrt [c Hc] [a Ha] Hacc Hx. unfold SaveAccess, bind, Begin,
      TxExec, Rollback, next_fault, ret. simpl. rewrite Hrt, Hc, Ha. simpl.
    rewrite Hacc. simpl. rewrite Hx. simpl. destruct rb; reflexivity.
  - intros rf e Hrt [c Hc] [a Ha] Hrf Hfree. unfold SaveAccess, saveRefresh,
      bind, Begin, TxExec, Rollback, next_fault, ret. simpl.
    rewrite Hrt. simpl. rewrite Hrf. simpl. rewrite Hfree. simpl.
    rewrite Hc, Ha. simpl. destruct rb; reflexivity.
  - intros rf acc x Hrt [c Hc] [a Ha] Hrf Hfree Hacc Hx.
    unfold SaveAccess, saveRefresh, bind, Begin, TxExec, Rollback,
      next_fault, ret. simpl.
    rewrite Hrt. simpl. rewrite Hrf. simpl. rewrite Hfree. simpl.
    rewrite Hc, Ha. simpl. rewrite Hacc. simpl. rewrite Hx. simpl.
    destruct rb; reflexivity.
Qed.

Lemma SaveAccess_rollback_error_surfaces_witness :
  SaveAccess grant_A
    (mkStorage (db sample_store)
       [None; Some (DriverFault 1); Some (DriverFault 2)])
    = Done (Some (DriverFault 2)) (mkStorage (db sample_store) []) /\
  SaveAccess grant_A
    (mkStorage (db store_A) [None; None; None])
    = Done (Some (UniqueViolation "refresh_pk")) (mkStorage (db store_A) []).
Proof.
  split.
  - apply (proj1 (SaveAccess_rollback_error_surfaces grant_A (db sample_store)
                    (Some (DriverFault 2)) []) (DriverFault 1)).
    reflexivity.
  - apply (proj1 (proj2 (SaveAccess_rollback_error_surfaces grant_A
                           (db store_A) None []))
             {[ "refA" := "tokA" ]} "tokA");
      vm_compute; reflexivity.
Defined.

(** *** Primary keys *)

Lemma SaveAccess_never_overwrites data s r :
  stored (AccessData.AccessToken data) (access (db s)) = Some r ->
  match SaveAccess data s with
  | Done None _ => False
  | Done (Some _) s' => db s' = db s
  | Panic s' => db s' = db s
  | Diverge => False
  end.
Proof.
  intros Hr. pose proof (SaveAccess_cases data s) as H.
  destruct (SaveAccess data s) as [[e|] s'|s'|]; try exact H.
  - destruct H as (row & acc & _ & Hacc & Hnone & _).
    rewrite Hacc in Hr. simpl in Hr. congruence.
  - destruct H as [H _]. exact H.
Qed.

(** C8: an insert under a key that is taken fails with the unique
    violation of that table's primary key, and every table is what it was,
    so that the record stored under the key keeps its fields.  This is so
    for [CreateClient], [SaveAuthorize] and the two inserts of [SaveAccess];
    the last conjunct adds that [SaveAccess] under a taken access token
    never succeeds and never changes a table, whichever call fails. *)
Theorem duplicate_key_rejected :
  (forall s id secret redirectURI r,
     stored id (client (db s)) = Some r -> pending s = None ->
     exists s',
       CreateClient id secret redirectURI s
         = Done (None, Some (UniqueViolation "client_pk")) s' /\
       db s' = db s) /\
  (forall s data r,
     is_Some (AuthorizeData.Client data) ->
     stored (AuthorizeData.Code data) (authorize (db s)) = Some r ->
     pending s = None ->
     exists s',
       SaveAuthorize data s = Done (Some (UniqueViolation "authorize_pk")) s' /\
       db s' = db s) /\
  (forall s data r,
     faults s = [] ->
     AccessData.RefreshToken data <> "" ->
     stored (AccessData.RefreshToken data) (refresh (db s)) = Some r ->
     SaveAccess data s = Done (Some (UniqueViolation "refresh_pk")) s) /\
  (forall s data r,
     faults s = [] ->
     is_Some (AccessData.Client data) ->
     is_Some (AccessData.AuthorizeData data) ->
     (AccessData.RefreshToken data = "" \/
      exists rf, refresh (db s) = Some rf /\
                 rf !! AccessData.RefreshToken data = None) ->
     stored (AccessData.AccessToken data) (access (db s)) = Some r ->
     SaveAccess data s = Done (Some (UniqueViolation "access_pk")) s) /\
  (forall s data r,
     stored (AccessData.AccessToken data) (access (db s)) = Some r ->
     forall s',
       SaveAccess data s <> Done None s' /\
       (SaveAccess data s = Panic s' \/
        (exists e, SaveAccess data s = Done (Some e) s') -> db s' = db s)).
Proof.
  split; [|split; [|split; [|split]]].
  - intros s id secret redirectURI r Hr Hp.
    unfold CreateClient, bind. rewrite Exec_spec, Hp. simpl.
    destruct (client (db s)) as [m|]; simpl in *; [|discriminate].
    rewrite Hr. simpl. eauto.
  - intros s data r [c Hc] Hr Hp.
    unfold SaveAuthorize. rewrite Hc, Exec_spec, Hp. simpl.
    destruct (authorize (db s)) as [m|]; simpl in *; [|discriminate].
    rewrite Hr. simpl. eauto.
  - intros [d f] data r Hf Hrt Hr. simpl in *. subst f.
    apply nonempty_true in Hrt.
    destruct (refresh d) as [rf|] eqn:Erf; simpl in *; [|discriminate].
    unfold SaveAccess, saveRefresh, bind, Begin, TxExec, Rollback,
      next_fault, ret. simpl. rewrite Hrt. simpl. rewrite Erf. simpl.
    rewrite Hr. reflexivity.
  - intros [d f] data r Hf [c Hc] [a Ha] Hrf Hr. simpl in *. subst f.
    destruct (access d) as [acc|] eqn:Eacc; simpl in *; [|discriminate].
    unfold SaveAccess, saveRefresh, bind, Begin, TxExec, Rollback,
      next_fault, ret. simpl. rewrite Hc, Ha.
    destruct Hrf as [Hrt|(rf & Erf & Hfree)].
    + apply nonempty_false in Hrt. rewrite Hrt. simpl. rewrite Eacc. simpl.
      rewrite Hr. reflexivity.
    + destruct (nonempty (AccessData.RefreshToken data)); simpl.
      * rewrite Erf. simpl. rewrite Hfree. simpl. rewrite Eacc. simpl.
        rewrite Hr. reflexivity.
      * rewrite Eacc. simpl. rewrite Hr. reflexivity.
  - intros s data r Hr s'.
    pose proof (SaveAccess_never_overwrites data s r Hr) as H.
    split.
    + intros E. rewrite E in H. exact H.
    + intros [E|[e E]]; rewrite E in H; exact H.
Qed.

Lemma duplicate_key_rejected_witness :
  (exists s',
     CreateClient "app" "other" "http://elsewhere" sample_store
       = Done (None, Some (UniqueViolation "client_pk")) s' /\
     db s' = db sample_store) /\
  SaveAccess grant_A store_A = Done (Some (UniqueViolation "refresh_pk")) store_A.
Proof.
  split.
  - apply (proj1 duplicate_key_rejected sample_store "app" "other"
             "http://elsewhere" (mkClientRow "s3cret" "http://cb"));
      reflexivity.
  - apply (proj1 (proj2 (proj2 duplicate_key_rejected)) store_A grant_A "tokA");
      [reflexivity|discriminate|vm_compute; reflexivity].
Defined.

(** *** Nil dereferences *)



Lemma dangling_reference_fails_witness :
  (exists e s',
     LoadAccess 1 "tokA" (after (RemoveAuthorize "code1") store_A)
       = Done (None, Some e) s') /\
  (exists e s',
     LoadAuthorize "code1"
       (mkStorage (mkDB (Some ∅) (authorize (db sample_store)) (Some ∅) (Some ∅)) [])
       = Done (None, Some e) s').
Proof.
  split.
  - apply (proj1 dangling_reference_fails 0%nat "tokA" store_A
             (after (RemoveAuthorize "code1") store_A)
             (mkAccessRow "app" "code1" "" "refA" 3600 "read" "http://cb"
                1700000100));
      vm_compute; reflexivity.
  - apply (proj2 dangling_reference_fails "code1" _
             (mkAuthorizeRow "app" 600 "read" "http://cb" "xyz" 1700000000));
      vm_compute; reflexivity.
Defined.

(** ** Lineage *)

Section LineageFacts.

Variable d : DB.

Lemma lineage_det tok l1 :
  lineage d tok l1 -> forall l2, lineage d tok l2 -> l1 = l2.
Proof.
  induction 1 as [tok Hend|tok row l Hrow Hprev Hl IH]; intros l2 H2.
  - inversion H2 as [|tok' row' l' Hrow' Hprev' Hl']; subst; [reflexivity|].
    destruct Hprev'. eauto.
  - inversion H2 as [tok' Hend'|tok' row' l' Hrow' Hprev' Hl']; subst.
    + destruct Hprev. eauto.
    + assert (row' = row) as -> by congruence. f_equal. eauto.
Qed.

Lemma lineage_from_member tok l :
  lineage d tok l -> forall t, t ∈ l ->
  exists l', lineage d t l' /\ (length l' <= length l)%nat.
Proof.
  induction 1 as [tok Hend|tok row l Hrow Hprev Hl IH]; intros t Ht.
  - apply list_elem_of_singleton in Ht. subst t.
    exists [tok]. split; [constructor; exact Hend|reflexivity].
  - apply elem_of_cons in Ht. destruct Ht as [->|Ht].
    + exists (tok :: l). split; [econstructor; eauto|reflexivity].
    + destruct (IH t Ht) as (l' & Hl' & Hlen). exists l'.
      split; [exact Hl'|simpl; lia].
Qed.

Lemma lineage_NoDup tok l : lineage d tok l -> NoDup l.
Proof.
  induction 1 as [tok Hend|tok row l Hrow Hprev Hl IH].
  - apply NoDup_singleton.
  - apply NoDup_cons. split; [|exact IH]. intros Hin.
    destruct (lineage_from_member _ _ Hl tok Hin) as (l' & Hl' & Hlen).
    assert (l' = tok :: l) as ->.
    { eapply lineage_det; [exact Hl'|]. econstructor; eauto. }
    simpl in Hlen. lia.
Qed.

Lemma follow_add a : forall b tok,
  follow d (a + b) tok = follow d a tok ≫= follow d b.
Proof.
  induction a as [|a IH]; intros b tok; [reflexivity|]. simpl.
  destruct (stored tok (access d)) as [row|]; [|reflexivity].
  destruct (nonempty (ac_previous row)); [apply IH|reflexivity].
Qed.

Lemma follow_prefix a b tok :
  is_Some (follow d (a + b) tok) -> is_Some (follow d a tok).
Proof.
  rewrite follow_add. destruct (follow d a tok); [eauto|].
  simpl. intros [x Hx]. discriminate.
Qed.

Lemma follow_cycle p t :
  follow d (S p) t = Some t -> forall n, is_Some (follow d n t).
Proof.
  intros Hcyc n. induction n as [n IH] using lt_wf_ind.
  destruct (le_lt_dec n (S p)) as [Hle|Hgt].
  - apply (follow_prefix n (S p - n)).
    replace (n + (S p - n))%nat with (S p) by lia. rewrite Hcyc. eauto.
  - replace n with (S p + (n - S p))%nat by lia.
    rewrite follow_add, Hcyc. simpl. apply IH. lia.
Qed.

Lemma follow_cyclic tok : cyclic d tok -> forall n, is_Some (follow d n tok).
Proof.
  intros (k & p & t & Hk & Hcyc) n.
  destruct (le_lt_dec n k) as [Hle|Hgt].
  - apply (follow_prefix n (k - n)).
    replace (n + (k - n))%nat with k by lia. rewrite Hk. eauto.
  - replace n with (k + (n - k))%nat by lia.
    rewrite follow_add, Hk. simpl. eapply follow_cycle. exact Hcyc.
Qed.

End LineageFacts.

Lemma select_inl_stored {V} t k (m : option (gmap string V)) v :
  select t k m = inl v -> stored k m = Some v.
Proof.
  destruct m as [m|]; simpl; [|discriminate].
  destruct (m !! k); [|discriminate]. intros [= ->]. reflexivity.
Qed.

(** A load runs out of depth only through the load of a previous token. *)
Lemma LoadAccess_diverge_inv fuel code s :
  LoadAccess (S fuel) code s = Diverge ->
  exists row s2,
    stored code (access (db s)) = Some row /\ ac_previous row <> "" /\
    db s2 = db s /\ LoadAccess fuel (ac_previous row) s2 = Diverge.
Proof.
  rewrite LoadAccess_unfold.
  set (row := match pending s with Some e => inr e | None => _ end).
  assert ((exists e, row = inr e) \/
          (exists r, stored code (access (db s)) = Some r /\
                     row = inl (ac_client r, ac_authorize r, ac_previous r,
                                AccessData.mk None None None code
                                  (ac_refresh_token r) (ac_expires_in r)
                                  (ac_scope r) (ac_redirect_uri r)
                                  (ac_created_at r)))) as Hrow.
  { subst row. destruct (pending s); [left; eauto|].
    destruct (select TAccess code (access (db s))) as [r|e] eqn:Hsel;
      [right|left; eauto].
    exists r. split; [eapply select_inl_stored; exact Hsel|reflexivity]. }
  clearbody row. cbv zeta.
  destruct Hrow as [[e ->]|(r & Hr & ->)]; simpl.
  - destruct (GetClient_returns "" (called s))
      as (x & s1 & -> & _ & [[c ->]|[e1 ->]]); [|discriminate].
    destruct (LoadAuthorize_returns "" s1)
      as (y & s2 & -> & _ & [[a ->]|[e2 ->]]); discriminate.
  - destruct (GetClient_returns (ac_client r) (called s))
      as (x & s1 & -> & Hdb1 & [[c ->]|[e1 ->]]); [|discriminate].
    destruct (LoadAuthorize_returns (ac_authorize r) s1)
      as (y & s2 & -> & Hdb2 & [[a ->]|[e2 ->]]); [|discriminate].
    destruct (nonempty (ac_previous r)) eqn:Hne; [|discriminate].
    destruct (LoadAccess fuel (ac_previous r) s2) as [[p [e|]] s3| |] eqn:HL;
      try discriminate.
    intros _. exists r, s2. split; [exact Hr|].
    split; [apply nonempty_true; exact Hne|].
    split; [simpl in *; congruence|exact HL].
Qed.

(** Along a lineage the load returns, whatever the connection does. *)
Lemma LoadAccess_lineage_returns d tok l :
  lineage d tok l ->
  forall s fuel, db s = d -> (length l <= fuel)%nat ->
  exists r s', LoadAccess fuel tok s = Done r s'.
Proof.
  induction 1 as [tok Hend|tok row l Hrow Hprev Hl IH]; intros s fuel Hd Hlen.
  - destruct fuel as [|fuel]; [simpl in Hlen; lia|].
    destruct (LoadAccess_returns (S fuel) tok s)
      as [Hdiv|(r & s' & H & _)]; [|eauto].
    apply LoadAccess_diverge_inv in Hdiv.
    destruct Hdiv as (row & s2 & Hr & Hne & _). rewrite Hd in Hr.
    destruct Hne. eauto.
  - destruct fuel as [|fuel]; [simpl in Hlen; lia|].
    destruct (LoadAccess_returns (S fuel) tok s)
      as [Hdiv|(r & s' & H & _)]; [|eauto].
    apply LoadAccess_diverge_inv in Hdiv.
    destruct Hdiv as (row' & s2 & Hr & _ & Hdb2 & Hdiv). rewrite Hd in Hr.
    assert (row' = row) as -> by congruence.
    destruct (IH s2 fuel) as (r & s' & H);
      [congruence|simpl in Hlen; lia|congruence].
Qed.

(** Along hops that never end the load has not returned at any depth. *)
Lemma LoadAccess_endless fuel : forall s tok,
  faults s = [] ->
  (forall n, is_Some (follow (db s) n tok)) ->
  resolves_along (db s) tok ->
  LoadAccess fuel tok s = Diverge.
Proof.
  induction fuel as [|fuel IH]; intros s tok Hf Hall Hres; [reflexivity|].
  destruct (Hall 1%nat) as [t Ht]. simpl in Ht.
  destruct (stored tok (access (db s))) as [row|] eqn:Hrow; [|discriminate].
  destruct (nonempty (ac_previous row)) eqn:Hne; [|discriminate].
  rewrite (LoadAccess_step fuel tok s row Hf Hrow), Hne
    by (apply (Hres 0%nat tok row); [reflexivity|exact Hrow]).
  rewrite IH; [reflexivity|exact Hf| |].
  - intros n. specialize (Hall (S n)). simpl in Hall.
    rewrite Hrow, Hne in Hall. exact Hall.
  - intros k t' row' Hk Hrow'. apply (Hres (S k) t' row'); [|exact Hrow'].
    simpl. rewrite Hrow, Hne. exact Hk.
Qed.

(** *** Chains of any length *)

Lemma token_length k : String.length (token k) = S k.
Proof.
  induction k as [|k IH]; [reflexivity|].
  cbn [token String.length]. rewrite IH. reflexivity.
Qed.

Lemma token_inj j k : token j = token k -> j = k.
Proof.
  intros H. apply (f_equal String.length) in H.
  rewrite !token_length in H. lia.
Qed.

Lemma token_nonempty k : nonempty (token k) = true.
Proof. destruct k; reflexivity. Qed.

Lemma chain_rows_lookup n : forall k,
  chain_rows n !! token k
    = if decide (k <= n)%nat then Some (chain_row k) else None.
Proof.
  induction n as [|n IH]; intros k; cbn [chain_rows].
  - destruct (decide (k = 0%nat)) as [->|Hk].
    + rewrite lookup_singleton_eq. reflexivity.
    + rewrite lookup_singleton_ne by (intros H; apply Hk; symmetry;
        exact (token_inj 0 k H)).
      destruct (decide (k <= 0)%nat); [lia|reflexivity].
  - destruct (decide (k = S n)) as [->|Hk].
    + rewrite lookup_insert_eq.
      destruct (decide (S n <= S n)%nat); [reflexivity|lia].
    + rewrite lookup_insert_ne by (intros H; apply Hk; symmetry;
        exact (token_inj (S n) k H)).
      rewrite IH.
      destruct (decide (k <= n)%nat), (decide (k <= S n)%nat);
        try reflexivity; lia.
Qed.

Lemma chain_stored n k :
  (k <= n)%nat ->
  stored (token k) (access (db (chain_store n))) = Some (chain_row k).
Proof.
  intros Hk. simpl. rewrite chain_rows_lookup.
  destruct (decide (k <= n)%nat); [reflexivity|lia].
Qed.

Lemma chain_resolves n k : resolves (db (chain_store n)) (chain_row k) = true.
Proof. vm_compute. reflexivity. Qed.

(** A save without a refresh token, over a healthy connection and under a
    free access token. *)
Lemma SaveAccess_plain_commits data d c a acc :
  AccessData.Client data = Some c ->
  AccessData.AuthorizeData data = Some a ->
  AccessData.RefreshToken data = "" ->
  access d = Some acc -> acc !! AccessData.AccessToken data = None ->
  exists row,
    columns data = Some row /\
    SaveAccess data (mkStorage d [])
      = Done None
          (mkStorage
             (mkDB (client d) (authorize d)
                (Some (<[AccessData.AccessToken data := row]> acc))
                (refresh d)) []).
Proof.
  intros Hc Ha Hrt Hacc Hfree. apply nonempty_false in Hrt.
  unfold columns. rewrite Hc, Ha. eexists. split; [reflexivity|].
  unfold SaveAccess, bind, Begin, TxExec, Commit, next_fault, ret. simpl.
  rewrite Hrt, Hc, Ha. simpl. rewrite Hacc. simpl. rewrite Hfree.
  reflexivity.
Qed.

Lemma chain_grant_token k : AccessData.AccessToken (chain_grant k) = token k.
Proof. destruct k; reflexivity. Qed.

(** The rotation is built by [SaveAccess], one grant after the other. *)
Lemma chain_store_reachable :
  SaveAccess (chain_grant 0) sample_store = Done None (chain_store 0) /\
  forall n,
    SaveAccess (chain_grant (S n)) (chain_store n) = Done None (chain_store (S n)).
Proof.
  split; [vm_compute; reflexivity|]. intros n.
  destruct (SaveAccess_plain_commits (chain_grant (S n)) (db (chain_store n))
              sample_client sample_authorize (chain_rows n))
    as (row & Hrow & Hsave); try reflexivity.
  - change (AccessData.AccessToken (chain_grant (S n))) with (token (S n)).
    rewrite chain_rows_lookup.
    destruct (decide (S n <= n)%nat); [lia|reflexivity].
  - injection Hrow as <-. rewrite (chain_grant_token n) in Hsave. exact Hsave.
Qed.

Lemma chain_lineage n : forall k,
  (k <= n)%nat ->
  exists l, lineage (db (chain_store n)) (token k) l /\ length l = S k.
Proof.
  induction k as [|k IH]; intros Hk.
  - exists [token 0]. split; [|reflexivity]. apply lineage_last.
    intros row Hrow. rewrite chain_stored in Hrow by lia.
    injection Hrow as <-. reflexivity.
  - destruct IH as (l & Hl & Hlen); [lia|].
    exists (token (S k) :: l). split; [|simpl; lia].
    apply (lineage_cons _ _ (chain_row (S k))).
    + apply chain_stored. exact Hk.
    + apply nonempty_true. apply (token_nonempty k).
    + exact Hl.
Qed.

Lemma LoadAccess_chain n : forall k,
  (k <= n)%nat ->
  exists g,
    LoadAccess (S k) (token k) (chain_store n)
      = Done (Some g, None) (chain_store n) /\
    AccessData.depth g = k.
Proof.
  induction k as [|k IH]; intros Hk.
  - rewrite (LoadAccess_step 0 (token 0) (chain_store n) (chain_row 0));
      [|reflexivity|apply chain_stored; exact Hk|apply chain_resolves].
    eexists. split; reflexivity.
  - destruct IH as (g & Hg & Hdepth); [lia|].
    rewrite (LoadAccess_step (S k) (token (S k)) (chain_store n)
               (chain_row (S k)));
      [|reflexivity|apply chain_stored; exact Hk|apply chain_resolves].
    cbn [chain_row ac_previous]. rewrite token_nonempty, Hg.
    eexists. split; [reflexivity|]. simpl. rewrite Hdepth. reflexivity.
Qed.

Lemma LoadAccess_chain_short n : forall k,
  (k <= n)%nat -> LoadAccess k (token k) (chain_store n) = Diverge.
Proof.
  induction k as [|k IH]; intros Hk; [reflexivity|].
  rewrite (LoadAccess_step k (token (S k)) (chain_store n) (chain_row (S k)));
    [|reflexivity|apply chain_stored; exact Hk|apply chain_resolves].
  cbn [chain_row ac_previous]. rewrite token_nonempty, IH by lia.
  reflexivity.
Qed.

(** *** A rotation that comes back to itself *)

Lemma store_loop_reachable :
  SaveAccess grant_loop sample_store = Done None store_loop.
Proof. vm_compute. reflexivity. Qed.

Lemma store_loop_cyclic : cyclic (db store_loop) "tokL".
Proof. exists 0%nat, 0%nat, "tokL". split; vm_compute; reflexivity. Qed.

Lemma store_loop_follow n : follow (db store_loop) n "tokL" = Some "tokL".
Proof.
  induction n as [|n IH]; [reflexivity|].
  cbn [follow].
  change (stored "tokL" (access (db store_loop)))
    with (Some (mkAccessRow "app" "code1" "tokL" "" 3600 "read" "http://cb"
                  1700000100)).
  exact IH.
Qed.

Lemma store_loop_resolves : resolves_along (db store_loop) "tokL".
Proof.
  intros k t row Hk Hrow. rewrite store_loop_follow in Hk.
  injection Hk as <-. vm_compute in Hrow. injection Hrow as <-.
  vm_compute. reflexivity.
Qed.

(** C3: when the previous tokens reachable from a token form a lineage, a
    finite list without repetition, the load of that token returns within a
    depth of the length of the lineage, whatever the connection does; for
    every [n] there is a store, built by [SaveAccess], with a lineage of
    [n + 1] tokens, whose load returns a grant with [n] predecessors below
    it and needs [n + 1] nested calls; and when the previous tokens lead
    into a cycle, on a healthy connection and with rows that resolve, the
    load has not returned at any depth. *)
Theorem LoadAccess_lineage_termination :
  (forall s tok l,
     lineage (db s) tok l ->
     NoDup l /\
     forall fuel, (length l <= fuel)%nat ->
     exists r s', LoadAccess fuel tok s = Done r s') /\
  (forall n,
     exists s tok l g,
       lineage (db s) tok l /\ length l = S n /\
       LoadAccess (S n) tok s = Done (Some g, None) s /\
       AccessData.depth g = n /\
       LoadAccess n tok s = Diverge) /\
  (forall s tok,
     faults s = [] -> cyclic (db s) tok -> resolves_along (db s) tok ->
     forall fuel, LoadAccess fuel tok s = Diverge).
Proof.
  split; [|split].
  - intros s tok l Hl. split; [eapply lineage_NoDup; exact Hl|].
    intros fuel Hlen.
    eapply LoadAccess_lineage_returns; [exact Hl|reflexivity|exact Hlen].
  - intros n.
    destruct (chain_lineage n n) as (l & Hl & Hlen); [lia|].
    destruct (LoadAccess_chain n n) as (g & Hg & Hdepth); [lia|].
    exists (chain_store n), (token n), l, g.
    split; [exact Hl|]. split; [exact Hlen|]. split; [exact Hg|].
    split; [exact Hdepth|]. apply LoadAccess_chain_short. lia.
  - intros s tok Hf Hcyc Hres fuel.
    apply LoadAccess_endless; [exact Hf| |exact Hres].
    apply follow_cyclic. exact Hcyc.
Qed.

Lemma LoadAccess_lineage_termination_witness :
  (NoDup ["tokB"; "tokA"] /\
   forall fuel, (length ["tokB"; "tokA"] <= fuel)%nat ->
   exists r s', LoadAccess fuel "tokB" store_AB = Done r s') /\
  (forall fuel, LoadAccess fuel "tokL" store_loop = Diverge).
Proof.
  split.
  - apply (proj1 LoadAccess_lineage_termination store_AB "tokB" ["tokB"; "tokA"]).
    apply (lineage_cons _ _ (mkAccessRow "app" "code1" "tokA" "refB" 3600
                               "read" "http://cb" 1700003700));
      [vm_compute; reflexivity|discriminate|].
    apply lineage_last. intros row Hrow. vm_compute in Hrow.
    injection Hrow as <-. reflexivity.
  - apply (proj2 (proj2 LoadAccess_lineage_termination) store_loop "tokL").
    + reflexivity.
    + exact store_loop_cyclic.
    + exact store_loop_resolves.
Defined.

(** *** The predecessor of a loaded grant *)

Lemma columns_grant_of d tok row :
  resolves d row = true -> ac_previous row = "" ->
  columns (grant_of d tok row None) = Some row.
Proof.
  unfold resolves, columns, grant_of. intros Hres Hprev.
  destruct (stored (ac_client row) (client d)) as [c|]; [|discriminate].
  destruct (stored (ac_authorize row) (authorize d)) as [r|]; [|discriminate].
  simpl. destruct row; simpl in *. subst. reflexivity.
Qed.

(** C2: grant [A] is saved without a predecessor, then grant [B] is saved
    with a predecessor that carries the token of [A]; the token of [A] is
    not the empty string, and what the two grants name is stored.  Then the
    load of the token of [B], on a healthy connection and at any depth of
    two or more, returns a grant whose predecessor has the token of [A] and
    the columns that were written for [A] (client id, authorization code,
    refresh token, expiry, scope, redirect URI, creation time, and an empty
    previous token), and that predecessor has no predecessor. *)
Theorem LoadAccess_resolves_predecessor A B s0 s1 s2 fuel :
  SaveAccess A s0 = Done None s1 ->
  SaveAccess B s1 = Done None s2 ->
  AccessData.AccessData A = None ->
  (exists p, AccessData.AccessData B = Some p /\
             AccessData.AccessToken p = AccessData.AccessToken A) ->
  AccessData.AccessToken A <> "" ->
  faults s2 = [] ->
  resolvable (db s2) A = true ->
  resolvable (db s2) B = true ->
  exists b a,
    LoadAccess (S (S fuel)) (AccessData.AccessToken B) s2
      = Done (Some b, None) s2 /\
    AccessData.AccessToken b = AccessData.AccessToken B /\
    AccessData.AccessData b = Some a /\
    AccessData.AccessToken a = AccessData.AccessToken A /\
    columns a = columns A /\
    AccessData.AccessData a = None.
Proof.
  intros HsA HsB HprevA (p & HprevB & Hp) HtokA Hf HresA HresB.
  pose proof (SaveAccess_cases A s0) as HA. rewrite HsA in HA.
  pose proof (SaveAccess_cases B s1) as HB. rewrite HsB in HB.
  destruct HA as (rowA & acc0 & HcolA & _ & _ & Hacc1 & _).
  destruct HB as (rowB & acc1 & HcolB & Hacc1' & HfreeB & Hacc2 & _).
  rewrite Hacc1 in Hacc1'. injection Hacc1' as <-.
  assert (AccessData.AccessToken B <> AccessData.AccessToken A) as Hne.
  { intros Heq. rewrite Heq, lookup_insert_eq in HfreeB. discriminate. }
  assert (stored (AccessData.AccessToken B) (access (db s2)) = Some rowB)
    as HrowB by (rewrite Hacc2; simpl; apply lookup_insert_eq).
  assert (stored (AccessData.AccessToken A) (access (db s2)) = Some rowA)
    as HrowA.
  { rewrite Hacc2. simpl. rewrite lookup_insert_ne by exact Hne.
    apply lookup_insert_eq. }
  unfold resolvable in HresA, HresB. rewrite HcolA in HresA.
  rewrite HcolB in HresB.
  assert (ac_previous rowA = "") as HpA.
  { unfold columns in HcolA. rewrite HprevA in HcolA.
    destruct (AccessData.Client A); [|discriminate].
    destruct (AccessData.AuthorizeData A); [|discriminate].
    injection HcolA as <-. reflexivity. }
  assert (ac_previous rowB = AccessData.AccessToken A) as HpB.
  { unfold columns in HcolB. rewrite HprevB in HcolB.
    destruct (AccessData.Client B); [|discriminate].
    destruct (AccessData.AuthorizeData B); [|discriminate].
    injection HcolB as <-. exact Hp. }
  rewrite (LoadAccess_step (S fuel) _ s2 rowB Hf HrowB HresB), HpB.
  apply nonempty_true in HtokA. rewrite HtokA.
  rewrite (LoadAccess_step fuel _ s2 rowA Hf HrowA HresA), HpA.
  change (nonempty "") with false. cbv iota.
  eexists _, _. split; [reflexivity|].
  split; [reflexivity|]. split; [reflexivity|]. split; [reflexivity|].
  split; [|reflexivity].
  rewrite HcolA. apply columns_grant_of; assumption.
Qed.

Lemma LoadAccess_resolves_predecessor_witness :
  exists b a,
    LoadAccess 2 "tokB" store_AB = Done (Some b, None) store_AB /\
    AccessData.AccessToken b = "tokB" /\
    AccessData.AccessData b = Some a /\
    AccessData.AccessToken a = "tokA" /\
    columns a = columns grant_A /\
    AccessData.AccessData a = None.
Proof.
  apply (LoadAccess_resolves_predecessor grant_A grant_B sample_store store_A
           store_AB 0);
    try (vm_compute; reflexivity).
  - exists grant_A. split; reflexivity.
  - discriminate.
Defined.

(** On the sample stores the loaded predecessor is grant [A] itself, field
    by field: the client and the authorization that [A] was saved with are
    the ones that are stored. *)
Lemma LoadAccess_sample_lineage :
  LoadAccess 2 "tokB" store_AB = Done (Some grant_B, None) store_AB.
Proof. vm_compute. reflexivity. Qed.


(** ** Further properties: clients *)

(** X1: a client that [CreateClient] has returned is the one built from
    the arguments, and [GetClient] of its id, when its query goes through,
    returns that same client. *)
Theorem CreateClient_GetClient_roundtrip id secret redirectURI s s1 c :
  CreateClient id secret redirectURI s = Done (Some c, None) s1 ->
  pending s1 = None ->
  c = mkDefaultClient id secret redirectURI None /\
  GetClient id s1 = Done (Some c, None) (called s1).
Proof.
  unfold CreateClient, bind. rewrite Exec_spec.
  destruct (pending s); [discriminate|]. simpl.
  destruct (client (db s)) as [m|]; simpl; [|discriminate].
  destruct (m !! id) eqn:Hid; simpl; [discriminate|].
  intros [= <- <-] Hp. split; [reflexivity|].
  rewrite GetClient_spec, Hp. simpl. rewrite lookup_insert_eq. reflexivity.
Qed.

Lemma CreateClient_GetClient_roundtrip_witness :
  sample_client = mkDefaultClient "app" "s3cret" "http://cb" None /\
  GetClient "app" (after (CreateClient "app" "s3cret" "http://cb") initial_store)
    = Done (Some sample_client, None)
        (called (after (CreateClient "app" "s3cret" "http://cb") initial_store)).
Proof.
  apply (CreateClient_GetClient_roundtrip "app" "s3cret" "http://cb"
           initial_store); reflexivity.
Defined.

(** X2: [CreateClient] touches the client table at its id and nothing
    else: whatever it returns, the three other tables and the records of
    the other clients are what they were, and when it returns an error the
    client table is what it was too. *)
Theorem CreateClient_frame id secret redirectURI s r s' :
  CreateClient id secret redirectURI s = Done r s' ->
  authorize (db s') = authorize (db s) /\
  access (db s') = access (db s) /\
  refresh (db s') = refresh (db s) /\
  (forall id', id' <> id ->
     stored id' (client (db s')) = stored id' (client (db s))) /\
  (is_Some (snd r) -> db s' = db s).
Proof.
  unfold CreateClient, bind, ret. rewrite Exec_spec.
  destruct (pending s); simpl;
    [intros [= <- <-]; simpl; repeat split; auto|].
  destruct (client (db s)) as [m|] eqn:Hm; simpl;
    [|intros [= <- <-]; simpl; rewrite Hm; repeat split; auto].
  destruct (m !! id) eqn:Hid; simpl;
    [intros [= <- <-]; simpl; rewrite Hm; repeat split; auto|].
  intros [= <- <-]. simpl. repeat split.
  - intros id' Hne. apply lookup_insert_ne. congruence.
  - intros [x Hx]. discriminate.
Qed.

Lemma CreateClient_frame_witness :
  authorize (db (after (CreateClient "app" "s3cret" "http://cb") initial_store))
    = authorize (db initial_store) /\
  access (db (after (CreateClient "app" "s3cret" "http://cb") initial_store))
    = access (db initial_store) /\
  refresh (db (after (CreateClient "app" "s3cret" "http://cb") initial_store))
    = refresh (db initial_store) /\
  (forall id', id' <> "app" ->
     stored id'
       (client (db (after (CreateClient "app" "s3cret" "http://cb")
                      initial_store)))
       = stored id' (client (db initial_store))) /\
  (is_Some (snd (Some sample_client, @None error)) ->
   db (after (CreateClient "app" "s3cret" "http://cb") initial_store)
     = db initial_store).
Proof.
  apply (CreateClient_frame "app" "s3cret" "http://cb" initial_store
           (Some sample_client, None)).
  reflexivity.
Defined.

(** X3: [UpdateClient] of an id that has a record, when its statement goes
    through, returns the client built from the arguments; [GetClient] of
    the id then returns that client; the records of the other clients and
    the three other tables are what they were. *)
Theorem UpdateClient_then_GetClient id secret redirectURI s r :
  stored id (client (db s)) = Some r -> pending s = None ->
  exists s1,
    UpdateClient id secret redirectURI s
      = Done (Some (mkDefaultClient id secret redirectURI None), None) s1 /\
    (pending s1 = None ->
     GetClient id s1
       = Done (Some (mkDefaultClient id secret redirectURI None), None)
           (called s1)) /\
    (forall id', id' <> id ->
       stored id' (client (db s1)) = stored id' (client (db s))) /\
    authorize (db s1) = authorize (db s) /\
    access (db s1) = access (db s) /\
    refresh (db s1) = refresh (db s).
Proof.
  intros Hr Hp. unfold UpdateClient, bind. rewrite Exec_spec, Hp. simpl.
  destruct (client (db s)) as [m|] eqn:Hm; simpl in *; [|discriminate].
  eexists. split; [reflexivity|]. simpl. repeat split.
  - intros Hp1. rewrite GetClient_spec, Hp1. simpl.
    rewrite lookup_alter_eq, Hr. reflexivity.
  - intros id' Hne. apply lookup_alter_ne. congruence.
Qed.

Lemma UpdateClient_then_GetClient_witness :
  exists s1,
    UpdateClient "app" "rotated" "http://new" sample_store
      = Done (Some (mkDefaultClient "app" "rotated" "http://new" None), None) s1 /\
    (pending s1 = None ->
     GetClient "app" s1
       = Done (Some (mkDefaultClient "app" "rotated" "http://new" None), None)
           (called s1)) /\
    (forall id', id' <> "app" ->
       stored id' (client (db s1)) = stored id' (client (db sample_store))) /\
    authorize (db s1) = authorize (db sample_store) /\
    access (db s1) = access (db sample_store) /\
    refresh (db s1) = refresh (db sample_store).
Proof.
  apply (UpdateClient_then_GetClient "app" "rotated" "http://new" sample_store
           (mkClientRow "s3cret" "http://cb")); reflexivity.
Defined.

(** ** Further properties: authorization codes *)



(** X5: [SaveAuthorize] does not look the client up.  For a client id
    without a record it stores the code all the same, under a free code and
    with a statement that goes through, and the code that it stored cannot
    be loaded: [LoadAuthorize] returns an error whenever its first query
    goes through. *)
Theorem SaveAuthorize_unknown_client data s c m :
  AuthorizeData.Client data = Some c ->
  stored (GetId c) (client (db s)) = None ->
  authorize (db s) = Some m -> m !! AuthorizeData.Code data = None ->
  pending s = None ->
  exists s1 row,
    SaveAuthorize data s = Done None s1 /\
    stored (AuthorizeData.Code data) (authorize (db s1)) = Some row /\
    au_client row = GetId c /\
    (pending s1 = None ->
     exists e s2,
       LoadAuthorize (AuthorizeData.Code data) s1 = Done (None, Some e) s2).
Proof.
  intros Hc Hcl Hm Hfree Hp.
  unfold SaveAuthorize. rewrite Hc, Exec_spec, Hp. simpl.
  rewrite Hm. simpl. rewrite Hfree. simpl.
  eexists _, _. split; [reflexivity|]. simpl.
  split; [apply lookup_insert_eq|]. split; [reflexivity|].
  intros Hp1.
  match goal with
  | |- context [LoadAuthorize _ ?s1] =>
      destruct (LoadAuthorize_dangling_client (AuthorizeData.Code data) s1
                  (mkAuthorizeRow (GetId c) (AuthorizeData.ExpiresIn data)
                     (AuthorizeData.Scope data) (AuthorizeData.RedirectUri data)
                     (AuthorizeData.State data) (AuthorizeData.CreatedAt data))
                  Hp1)
        as (e & s2 & H & _)
  end.
  - simpl. apply lookup_insert_eq.
  - simpl. exact Hcl.
  - eauto.
Qed.

Lemma SaveAuthorize_unknown_client_witness :
  exists s1 row,
    SaveAuthorize sample_authorize initial_store = Done None s1 /\
    stored "code1" (authorize (db s1)) = Some row /\
    au_client row = "app" /\
    (pending s1 = None ->
     exists e s2, LoadAuthorize "code1" s1 = Done (None, Some e) s2).
Proof.
  apply (SaveAuthorize_unknown_client sample_authorize initial_store
           sample_client ∅); reflexivity.
Defined.

(** X6: after a [RemoveAuthorize] that returned no error, [LoadAuthorize]
    of the code, when its query goes through, returns [sql.ErrNoRows] and no
    grant after that one query. *)
Theorem RemoveAuthorize_then_LoadAuthorize code s s1 :
  RemoveAuthorize code s = Done None s1 ->
  pending s1 = None ->
  LoadAuthorize code s1 = Done (None, Some ErrNoRows) (called s1).
Proof.
  unfold RemoveAuthorize. rewrite Exec_spec.
  destruct (pending s); [discriminate|]. simpl.
  destruct (authorize (db s)) as [m|]; simpl; [|discriminate].
  intros [= <-] Hp. rewrite LoadAuthorize_spec, Hp. simpl.
  rewrite lookup_delete_eq. reflexivity.
Qed.

Lemma RemoveAuthorize_then_LoadAuthorize_witness :
  LoadAuthorize "code1" (after (RemoveAuthorize "code1") sample_store)
    = Done (None, Some ErrNoRows)
        (called (after (RemoveAuthorize "code1") sample_store)).
Proof.
  apply (RemoveAuthorize_then_LoadAuthorize "code1" sample_store); reflexivity.
Defined.

(** ** Further properties: removal *)

Lemma Prepare_spec t s :
  Prepare t s =
    Done (match pending s with
          | Some e => Some e
          | None => if exists_table t (db s) then None
                    else Some (UndefinedTable t)
          end) (called s).
Proof.
  unfold Prepare, bind. rewrite next_fault_spec.
  destruct (pending s); [reflexivity|]. simpl.
  destruct (exists_table t (db s)); reflexivity.
Qed.

Lemma db_eta d :
  mkDB (client d) (authorize d) (access d) (refresh d) = d.
Proof. destruct d; reflexivity. Qed.

(** X7: removing a key that has no row is not an error and changes no
    table, for [RemoveAuthorize], [RemoveAccess] and [RemoveRefresh], when
    the calls they make go through. *)
Theorem remove_absent_is_noop :
  (forall code s m,
     authorize (db s) = Some m -> m !! code = None -> pending s = None ->
     exists s', RemoveAuthorize code s = Done None s' /\ db s' = db s) /\
  (forall code s m,
     access (db s) = Some m -> m !! code = None ->
     pending s = None -> pending (called s) = None ->
     exists s', RemoveAccess code s = Done None s' /\ db s' = db s) /\
  (forall code s m,
     refresh (db s) = Some m -> m !! code = None ->
     pending s = None -> pending (called s) = None ->
     exists s', RemoveRefresh code s = Done None s' /\ db s' = db s).
Proof.
  split; [|split].
  - intros code s m Hm Hfree Hp. unfold RemoveAuthorize.
    rewrite Exec_spec, Hp. simpl. rewrite Hm. simpl.
    rewrite (delete_id _ _ Hfree), <- Hm, db_eta. eauto.
  - intros code s m Hm Hfree Hp Hp1. unfold RemoveAccess, bind.
    rewrite Prepare_spec, Hp. simpl. rewrite Hm. simpl.
    rewrite Exec_spec, Hp1. simpl. rewrite Hm. simpl.
    rewrite (delete_id _ _ Hfree), <- Hm, db_eta. eauto.
  - intros code s m Hm Hfree Hp Hp1. unfold RemoveRefresh, bind.
    rewrite Prepare_spec, Hp. simpl. rewrite Hm. simpl.
    rewrite Exec_spec, Hp1. simpl. rewrite Hm. simpl.
    rewrite (delete_id _ _ Hfree), <- Hm, db_eta. eauto.
Qed.

Lemma remove_absent_is_noop_witness :
  (exists s', RemoveAuthorize "nocode" store_A = Done None s' /\
              db s' = db store_A) /\
  (exists s', RemoveAccess "notoken" store_A = Done None s' /\
              db s' = db store_A) /\
  (exists s', RemoveRefresh "norefresh" store_A = Done None s' /\
              db s' = db store_A).
Proof.
  split; [|split].
  - apply (proj1 remove_absent_is_noop "nocode" store_A
             {[ "code1" := mkAuthorizeRow "app" 600 "read" "http://cb" "xyz"
                             1700000000 ]}); reflexivity.
  - apply (proj1 (proj2 remove_absent_is_noop) "notoken" store_A
             {[ "tokA" := mkAccessRow "app" "code1" "" "refA" 3600 "read"
                            "http://cb" 1700000100 ]});
      vm_compute; reflexivity.
  - apply (proj2 (proj2 remove_absent_is_noop) "norefresh" store_A
             {[ "refA" := "tokA" ]}); vm_compute; reflexivity.
Defined.

Lemma RemoveAccess_inv code s s' :
  RemoveAccess code s = Done None s' ->
  exists m, access (db s) = Some m /\
    db s' = mkDB (client (db s)) (authorize (db s)) (Some (delete code m))
              (refresh (db s)).
Proof.
  unfold RemoveAccess, bind. rewrite Prepare_spec.
  destruct (pending s); [discriminate|]. simpl.
  destruct (access (db s)) as [m|] eqn:Hm; simpl; [|discriminate].
  rewrite Exec_spec. destruct (pending (called s)); [discriminate|].
  simpl. rewrite Hm. simpl. intros [= <-]. eauto.
Qed.

Lemma RemoveRefresh_inv code s s' :
  RemoveRefresh code s = Done None s' ->
  exists m, refresh (db s) = Some m /\
    db s' = mkDB (client (db s)) (authorize (db s)) (access (db s))
              (Some (delete code m)).
Proof.
  unfold RemoveRefresh, bind. rewrite Prepare_spec.
  destruct (pending s); [discriminate|]. simpl.
  destruct (refresh (db s)) as [m|] eqn:Hm; simpl; [|discriminate].
  rewrite Exec_spec. destruct (pending (called s)); [discriminate|].
  simpl. rewrite Hm. simpl. intros [= <-]. eauto.
Qed.

(** X8: a removal does not cascade.  [RemoveAccess] that returned no
    error has removed the row of its token and nothing else: the other
    access rows and the refresh table, with any refresh row that points at
    the removed token, are what they were, and so are clients and codes.
    [RemoveRefresh] that returned no error has removed the row of its token
    and has left the access table, the other refresh rows, clients and codes
    as they were. *)
Theorem removal_does_not_cascade :
  (forall code s s',
     RemoveAccess code s = Done None s' ->
     stored code (access (db s')) = None /\
     (forall t, t <> code ->
        stored t (access (db s')) = stored t (access (db s))) /\
     refresh (db s') = refresh (db s) /\
     client (db s') = client (db s) /\
     authorize (db s') = authorize (db s)) /\
  (forall code s s',
     RemoveRefresh code s = Done None s' ->
     stored code (refresh (db s')) = None /\
     (forall t, t <> code ->
        stored t (refresh (db s')) = stored t (refresh (db s))) /\
     access (db s') = access (db s) /\
     client (db s') = client (db s) /\
     authorize (db s') = authorize (db s)).
Proof.
  split.
  - intros code s s' H.
    destruct (RemoveAccess_inv _ _ _ H) as (m & Hm & ->). simpl.
    rewrite Hm. simpl. repeat split.
    + apply lookup_delete_eq.
    + intros t Hne. apply lookup_delete_ne. congruence.
  - intros code s s' H.
    destruct (RemoveRefresh_inv _ _ _ H) as (m & Hm & ->). simpl.
    rewrite Hm. simpl. repeat split.
    + apply lookup_delete_eq.
    + intros t Hne. apply lookup_delete_ne. congruence.
Qed.

Lemma removal_does_not_cascade_witness :
  stored "tokA" (access (db (after (RemoveAccess "tokA") store_A))) = None /\
  stored "refA" (refresh (db (after (RemoveAccess "tokA") store_A)))
    = Some "tokA".
Proof.
  destruct (proj1 removal_does_not_cascade "tokA" store_A
              (after (RemoveAccess "tokA") store_A))
    as (Hgone & _ & Hrefresh & _); [vm_compute; reflexivity|].
  split; [exact Hgone|]. rewrite Hrefresh. vm_compute. reflexivity.
Defined.

(** X9: after a [RemoveAccess] that returned no error, over a healthy
    connection and in a store where no client has the empty id,
    [LoadAccess] of the token returns an error and no grant. *)
Theorem RemoveAccess_then_LoadAccess code s s1 fuel :
  RemoveAccess code s = Done None s1 ->
  faults s1 = [] ->
  stored "" (client (db s1)) = None ->
  exists e, LoadAccess (S fuel) code s1 = Done (None, Some e) s1.
Proof.
  intros Hrm Hf Hblank.
  apply LoadAccess_missing_row_no_blank_client; [exact Hf| |exact Hblank].
  destruct (RemoveAccess_inv _ _ _ Hrm) as (m & _ & ->). simpl.
  apply lookup_delete_eq.
Qed.

Lemma RemoveAccess_then_LoadAccess_witness :
  exists e,
    LoadAccess 1 "tokA" (after (RemoveAccess "tokA") store_A)
      = Done (None, Some e) (after (RemoveAccess "tokA") store_A).
Proof.
  apply (RemoveAccess_then_LoadAccess "tokA" store_A
           (after (RemoveAccess "tokA") store_A) 0);
    vm_compute; reflexivity.
Defined.

(** ** Further properties: refresh tokens *)

Lemma LoadRefresh_spec fuel code s :
  LoadRefresh fuel code s =
    match pending s with
    | Some e => Done (None, Some e) (called s)
    | None =>
        match select TRefresh code (refresh (db s)) with
        | inl tok => LoadAccess fuel tok (called s)
        | inr e => Done (None, Some e) (called s)
        end
    end.
Proof.
  unfold LoadRefresh, bind. rewrite QueryRow_spec.
  destruct (pending s); [reflexivity|].
  destruct (select TRefresh code (refresh (db s))); reflexivity.
Qed.

(** X10: [LoadRefresh] of a token without a refresh row, when its query
    goes through, returns [sql.ErrNoRows] and no grant after that one query;
    it does not go on to the access table, at any depth. *)
Theorem LoadRefresh_missing fuel code s m :
  refresh (db s) = Some m -> m !! code = None -> pending s = None ->
  LoadRefresh fuel code s = Done (None, Some ErrNoRows) (called s).
Proof.
  intros Hm Hfree Hp. rewrite LoadRefresh_spec, Hp, Hm.
  rewrite (select_missing _ _ _ Hfree). reflexivity.
Qed.

Lemma LoadRefresh_missing_witness :
  LoadRefresh 0 "norefresh" store_A
    = Done (None, Some ErrNoRows) (called store_A).
Proof.
  apply (LoadRefresh_missing 0 "norefresh" store_A {[ "refA" := "tokA" ]});
    vm_compute; reflexivity.
Defined.

(** X11: after a [RemoveRefresh] that returned no error, [LoadRefresh] of
    the token, when its query goes through, returns [sql.ErrNoRows]. *)
Theorem RemoveRefresh_then_LoadRefresh fuel code s s1 :
  RemoveRefresh code s = Done None s1 ->
  pending s1 = None ->
  LoadRefresh fuel code s1 = Done (None, Some ErrNoRows) (called s1).
Proof.
  intros Hrm Hp.
  destruct (RemoveRefresh_inv _ _ _ Hrm) as (m & _ & Hdb).
  rewrite LoadRefresh_spec, Hp, Hdb. simpl.
  rewrite lookup_delete_eq. reflexivity.
Qed.

Lemma RemoveRefresh_then_LoadRefresh_witness :
  LoadRefresh 1 "refA" (after (RemoveRefresh "refA") store_A)
    = Done (None, Some ErrNoRows)
        (called (after (RemoveRefresh "refA") store_A)).
Proof.
  apply (RemoveRefresh_then_LoadRefresh 1 "refA" store_A);
    vm_compute; reflexivity.
Defined.

(** X12: after a [SaveAccess] that returned no error, of a grant with a
    refresh token and without a predecessor, over a healthy connection and
    with what the grant names stored, [LoadRefresh] of the refresh token and
    [LoadAccess] of the access token return the same grant: it has the
    access token and the columns that were saved, and no predecessor. *)
Theorem SaveAccess_LoadRefresh_roundtrip data s s1 fuel :
  SaveAccess data s = Done None s1 ->
  AccessData.RefreshToken data <> "" ->
  AccessData.AccessData data = None ->
  faults s1 = [] ->
  resolvable (db s1) data = true ->
  exists g,
    LoadRefresh (S fuel) (AccessData.RefreshToken data) s1
      = Done (Some g, None) s1 /\
    LoadAccess (S fuel) (AccessData.AccessToken data) s1
      = Done (Some g, None) s1 /\
    AccessData.AccessToken g = AccessData.AccessToken data /\
    columns g = columns data /\
    AccessData.AccessData g = None.
Proof.
  intros Hsave Hrt Hprev Hf Hres.
  pose proof (SaveAccess_cases data s) as H. rewrite Hsave in H.
  destruct H as (row & acc & Hcol & _ & _ & Hacc & _ & _ & Hrf).
  apply nonempty_true in Hrt. rewrite Hrt in Hrf.
  destruct Hrf as (rf & _ & _ & Hrf).
  unfold resolvable in Hres. rewrite Hcol in Hres.
  assert (ac_previous row = "") as Hp.
  { unfold columns in Hcol. rewrite Hprev in Hcol.
    destruct (AccessData.Client data); [|discriminate].
    destruct (AccessData.AuthorizeData data); [|discriminate].
    injection Hcol as <-. reflexivity. }
  assert (stored (AccessData.AccessToken data) (access (db s1)) = Some row)
    as Hrow by (rewrite Hacc; simpl; apply lookup_insert_eq).
  assert (LoadAccess (S fuel) (AccessData.AccessToken data) s1
          = Done (Some (grant_of (db s1) (AccessData.AccessToken data) row None),
                  None) s1) as Hload.
  { rewrite (LoadAccess_step fuel _ s1 row Hf Hrow Hres), Hp. reflexivity. }
  exists (grant_of (db s1) (AccessData.AccessToken data) row None).
  split; [|split; [exact Hload|]].
  - destruct (healthy_called s1 Hf) as [Hc Hpend].
    rewrite LoadRefresh_spec, Hpend, Hc, Hrf. simpl.
    rewrite lookup_insert_eq. exact Hload.
  - split; [reflexivity|]. split; [|reflexivity].
    rewrite Hcol. apply columns_grant_of; assumption.
Qed.

Lemma SaveAccess_LoadRefresh_roundtrip_witness :
  exists g,
    LoadRefresh 1 "refA" store_A = Done (Some g, None) store_A /\
    LoadAccess 1 "tokA" store_A = Done (Some g, None) store_A /\
    AccessData.AccessToken g = "tokA" /\
    columns g = columns grant_A /\
    AccessData.AccessData g = None.
Proof.
  apply (SaveAccess_LoadRefresh_roundtrip grant_A sample_store store_A 0);
    try (vm_compute; reflexivity).
  discriminate.
Defined.

(** ** Further properties: access grants *)

(** X13: [SaveAccess] of a grant with an empty refresh token writes no
    refresh row.  When it returns no error the access row is stored under
    the access token and the refresh table, the clients and the codes are
    what they were; when it returns an error or panics every table is what
    it was. *)
Theorem SaveAccess_without_refresh data s :
  AccessData.RefreshToken data = "" ->
  match SaveAccess data s with
  | Done None s' =>
      exists row,
        columns data = Some row /\
        stored (AccessData.AccessToken data) (access (db s')) = Some row /\
        refresh (db s') = refresh (db s) /\
        client (db s') = client (db s) /\
        authorize (db s') = authorize (db s)
  | Done (Some _) s' => db s' = db s
  | Panic s' => db s' = db s
  | Diverge => False
  end.
Proof.
  intros Hrt. apply nonempty_false in Hrt.
  pose proof (SaveAccess_cases data s) as H.
  destruct (SaveAccess data s) as [[e|] s'|s'|]; try exact H.
  - destruct H as (row & acc & Hcol & _ & _ & Hacc & Hcl & Hau & Hrf).
    rewrite Hrt in Hrf. exists row. rewrite Hacc. simpl.
    rewrite lookup_insert_eq. auto.
  - destruct H as [H _]. exact H.
Qed.

Lemma SaveAccess_without_refresh_witness :
  match SaveAccess (chain_grant 0) sample_store with
  | Done None s' =>
      exists row,
        columns (chain_grant 0) = Some row /\
        stored "t" (access (db s')) = Some row /\
        refresh (db s') = refresh (db sample_store) /\
        client (db s') = client (db sample_store) /\
        authorize (db s') = authorize (db sample_store)
  | Done (Some _) s' => db s' = db sample_store
  | Panic s' => db s' = db sample_store
  | Diverge => False
  end.
Proof.
  apply (SaveAccess_without_refresh (chain_grant 0) sample_store).
  reflexivity.
Defined.

(** X14: [SaveAccess] does not look the predecessor up.  A grant that was
    saved with a predecessor whose token is not empty and has no access row
    cannot be loaded: over a healthy connection, and in a store where no
    client has the empty id, [LoadAccess] of the grant returns an error and
    no grant at any depth of two or more. *)
Theorem SaveAccess_dangling_predecessor data s s1 p fuel :
  SaveAccess data s = Done None s1 ->
  AccessData.AccessData data = Some p ->
  AccessData.AccessToken p <> "" ->
  stored (AccessData.AccessToken p) (access (db s1)) = None ->
  stored "" (client (db s1)) = None ->
  faults s1 = [] ->
  exists e,
    LoadAccess (S (S fuel)) (AccessData.AccessToken data) s1
      = Done (None, Some e) s1.
Proof.
  intros Hsave Hprev Hne Hgone Hblank Hf.
  pose proof (SaveAccess_cases data s) as H. rewrite Hsave in H.
  destruct H as (row & acc & Hcol & _ & _ & Hacc & _).
  assert (ac_previous row = AccessData.AccessToken p) as Hp.
  { unfold columns in Hcol. rewrite Hprev in Hcol.
    destruct (AccessData.Client data); [|discriminate].
    destruct (AccessData.AuthorizeData data); [|discriminate].
    injection Hcol as <-. reflexivity. }
  assert (stored (AccessData.AccessToken data) (access (db s1)) = Some row)
    as Hrow by (rewrite Hacc; simpl; apply lookup_insert_eq).
  destruct (healthy_called s1 Hf) as [Hc Hpend].
  rewrite LoadAccess_unfold, Hpend, Hc, (select_stored _ _ _ _ Hrow).
  cbn -[LoadAccess GetClient LoadAuthorize].
  rewrite GetClient_spec, Hpend, Hc.
  destruct (select TClient (ac_client row) (client (db s1))); [|eauto].
  rewrite LoadAuthorize_spec, Hpend, Hc.
  destruct (select TAuthorize (ac_authorize row) (authorize (db s1)));
    [|eauto].
  rewrite GetClient_spec, Hpend, Hc.
  destruct (select TClient (au_client a) (client (db s1))); [|eauto].
  rewrite Hp. apply nonempty_true in Hne. rewrite Hne.
  destruct (LoadAccess_missing_row_no_blank_client fuel
              (AccessData.AccessToken p) s1 Hf Hgone Hblank) as [e ->].
  eauto.
Qed.

Lemma SaveAccess_dangling_predecessor_witness :
  exists e,
    LoadAccess 2 "tokB" (after (SaveAccess grant_B) sample_store)
      = Done (None, Some e) (after (SaveAccess grant_B) sample_store).
Proof.
  apply (SaveAccess_dangling_predecessor grant_B sample_store
           (after (SaveAccess grant_B) sample_store) grant_A 0);
    try (vm_compute; reflexivity).
  discriminate.
Defined.

(** ** Further properties: schema creation *)

Lemma keeps_refl d : keeps d d.
Proof. unfold keeps. auto. Qed.

Lemma keeps_trans d1 d2 d3 : keeps d1 d2 -> keeps d2 d3 -> keeps d1 d3.
Proof.
  unfold keeps. intros (A1 & A2 & A3 & A4) (B1 & B2 & B3 & B4).
  repeat split; eauto.
Qed.

Lemma run_create_keeps q d d' :
  is_create q = true -> run q d = inl d' -> keeps d d'.
Proof.
  destruct q as [t b| | | | | | | |]; try discriminate. intros _. simpl.
  destruct (exists_table t d) eqn:Hex.
  - destruct b; [|discriminate]. intros [= <-]. apply keeps_refl.
  - intros [= <-]. unfold keeps.
    destruct t; simpl in *; repeat split; auto; intros m Hm;
      rewrite Hm in Hex; rewrite bool_decide_eq_true_2 in Hex by eauto;
      discriminate.
Qed.

Lemma Exec_create_keeps q s r s' :
  is_create q = true -> Exec q s = Done r s' -> keeps (db s) (db s').
Proof.
  intros Hq. rewrite Exec_spec.
  destruct (pending s); [intros [= <- <-]; apply keeps_refl|].
  destruct (run q (db s)) as [d|e] eqn:Hrun.
  - intros [= <- <-]. simpl. eapply run_create_keeps; eauto.
  - intros [= <- <-]. apply keeps_refl.
Qed.

Lemma CreateSchemas_range_keeps l :
  forallb is_create l = true ->
  forall s r s', CreateSchemas_range l s = Done r s' -> keeps (db s) (db s').
Proof.
  induction l as [|q l IH]; intros Hl s r s'.
  - intros [= <- <-]. apply keeps_refl.
  - simpl in Hl. apply andb_true_iff in Hl. destruct Hl as [Hq Hl].
    cbn [CreateSchemas_range]. unfold bind.
    destruct (Exec q s) as [[e|] s1| |] eqn:Hexec; try discriminate.
    + intros [= <- <-]. eapply Exec_create_keeps; eauto.
    + intros Hrest. eapply keeps_trans.
      * eapply Exec_create_keeps; eauto.
      * eapply IH; eauto.
Qed.

(** X15: on a server that has no client table, over a healthy connection,
    [CreateSchemas] returns no error and leaves four tables: an empty
    client table, and each of the three others with the rows it had, or
    empty when it did not exist. *)
Theorem CreateSchemas_without_client_table s :
  faults s = [] -> client (db s) = None ->
  CreateSchemas s
    = Done None
        (mkStorage
           (mkDB (Some ∅) (Some (default ∅ (authorize (db s))))
                 (Some (default ∅ (access (db s))))
                 (Some (default ∅ (refresh (db s))))) []).
Proof.
  destruct s as [[c au ac rf] f]. simpl. intros -> ->.
  unfold CreateSchemas, schemas. cbn [CreateSchemas_range]. unfold bind.
  rewrite !Exec_spec. simpl.
  destruct au, ac, rf; reflexivity.
Qed.

Lemma CreateSchemas_without_client_table_witness :
  CreateSchemas
    (mkStorage (mkDB None (authorize (db sample_store)) None None) [])
    = Done None
        (mkStorage
           (mkDB (Some ∅) (Some (default ∅ (authorize (db sample_store))))
                 (Some (default ∅ None)) (Some (default ∅ None))) []).
Proof.
  apply (CreateSchemas_without_client_table
           (mkStorage (mkDB None (authorize (db sample_store)) None None) []));
    reflexivity.
Defined.

(** X16: [CreateSchemas] never drops a table and never changes a row:
    whatever it returns and whichever call fails, every table that existed
    before exists after, with the same rows.  It is not undone on failure
    either: when the second statement fails in the driver on a server
    without a client table, the error is returned and the client table that
    the first statement created stays. *)
Theorem CreateSchemas_keeps_tables :
  (forall s r s', CreateSchemas s = Done r s' -> keeps (db s) (db s')) /\
  (forall s e fs,
     client (db s) = None -> faults s = None :: Some e :: fs ->
     CreateSchemas s
       = Done (Some e) (mkStorage (create_table TClient (db s)) fs)).
Proof.
  split.
  - intros s r s'. apply CreateSchemas_range_keeps. reflexivity.
  - intros [[c au ac rf] f] e fs. simpl. intros -> ->.
    unfold CreateSchemas, schemas. cbn [CreateSchemas_range]. unfold bind.
    rewrite !Exec_spec. reflexivity.
Qed.

Lemma CreateSchemas_keeps_tables_witness :
  keeps (db store_A) (db store_A) /\
  CreateSchemas (with_faults empty_store [None; Some (DriverFault 7)])
    = Done (Some (DriverFault 7))
        (mkStorage (create_table TClient (db empty_store)) []).
Proof.
  split.
  - apply (proj1 CreateSchemas_keeps_tables store_A
             (Some (DuplicateTable TClient)) store_A).
    vm_compute. reflexivity.
  - apply (proj2 CreateSchemas_keeps_tables
             (with_faults empty_store [None; Some (DriverFault 7)])
             (DriverFault 7) []); reflexivity.
Defined.

(** ** Further properties: loads *)

(** X17: a load never writes and never panics.  Whenever [LoadAccess] or
    [LoadRefresh] returns, under any failures of the connection, it returns
    a grant and no error or an error and no grant, and every table is what
    it was. *)
Theorem loads_read_only fuel code s :
  (LoadAccess fuel code s = Diverge \/
   exists r s',
     LoadAccess fuel code s = Done r s' /\ db s' = db s /\
     ((exists g, r = (Some g, None)) \/ (exists e, r = (None, Some e)))) /\
  (LoadRefresh fuel code s = Diverge \/
   exists r s',
     LoadRefresh fuel code s = Done r s' /\ db s' = db s /\
     ((exists g, r = (Some g, None)) \/ (exists e, r = (None, Some e)))).
Proof.
  split; [apply LoadAccess_returns|].
  rewrite LoadRefresh_spec. destruct (pending s).
  - right. eexists _, _. split; [reflexivity|]. split; [reflexivity|].
    right. eauto.
  - destruct (select TRefresh code (refresh (db s))) as [tok|e].
    + destruct (LoadAccess_returns fuel tok (called s))
        as [->|(r & s' & -> & Hdb & Hr)]; [left; reflexivity|].
      right. eexists _, _. split; [reflexivity|]. split; [exact Hdb|exact Hr].
    + right. eexists _, _. split; [reflexivity|]. split; [reflexivity|].
      right. eauto.
Qed.

Lemma LoadAccess_step_calls fuel code d fs row :
  stored code (access d) = Some row -> resolves d row = true ->
  LoadAccess (S fuel) code (mkStorage d (None :: None :: None :: None :: fs)) =
    if nonempty (ac_previous row)
    then
      match LoadAccess fuel (ac_previous row) (mkStorage d fs) with
      | Done (prevAccess, None) s3 =>
          Done (Some (grant_of d code row prevAccess), None) s3
      | Done (_, Some e) s3 => Done (None, Some e) s3
      | Panic s3 => Panic s3
      | Diverge => Diverge
      end
    else Done (Some (grant_of d code row None), None) (mkStorage d fs).
Proof.
  intros Hrow Hres. rewrite LoadAccess_unfold.
  change (pending (mkStorage d (None :: None :: None :: None :: fs)))
    with (@None error).
  change (db (mkStorage d (None :: None :: None :: None :: fs))) with d.
  change (called (mkStorage d (None :: None :: None :: None :: fs)))
    with (mkStorage d (None :: None :: None :: fs)).
  rewrite (select_stored _ _ _ _ Hrow).
  cbn -[LoadAccess GetClient LoadAuthorize].
  unfold resolves in Hres.
  destruct (stored (ac_client row) (client d)) as [c|] eqn:Ec; [|discriminate].
  destruct (stored (ac_authorize row) (authorize d)) as [r|] eqn:Er;
    [|discriminate].
  destruct (stored (au_client r) (client d)) as [c'|] eqn:Ec'; [|discriminate].
  rewrite GetClient_spec.
  change (pending (mkStorage d (None :: None :: None :: fs))) with (@None error).
  change (db (mkStorage d (None :: None :: None :: fs))) with d.
  change (called (mkStorage d (None :: None :: None :: fs)))
    with (mkStorage d (None :: None :: fs)).
  rewrite (select_stored _ _ _ _ Ec).
  rewrite LoadAuthorize_spec.
  change (pending (mkStorage d (None :: None :: fs))) with (@None error).
  change (db (mkStorage d (None :: None :: fs))) with d.
  change (called (mkStorage d (None :: None :: fs)))
    with (mkStorage d (None :: fs)).
  rewrite (select_stored _ _ _ _ Er).
  rewrite GetClient_spec.
  change (pending (mkStorage d (None :: fs))) with (@None error).
  change (db (mkStorage d (None :: fs))) with d.
  change (called (mkStorage d (None :: fs))) with (mkStorage d fs).
  rewrite (select_stored _ _ _ _ Ec').
  unfold grant_of. rewrite Ec, Er. cbn [fmap option_fmap option_map].
  rewrite Ec'. cbn [fmap option_fmap option_map].
  destruct (nonempty (ac_previous row)); [|reflexivity].
  destruct (LoadAccess fuel (ac_previous row) (mkStorage d fs))
    as [[p [e|]] s3| |]; reflexivity.
Qed.

(** X18: the load of a lineage of [n] grants whose rows resolve makes
    [4 * n] calls to the driver, four for each grant: the access row, its
    client, its authorization code and the client of that code.  With a
    connection that lets [4 * n] calls through, the load returns a grant
    with [n - 1] predecessors below it, and what the connection holds after
    these calls is left for the caller. *)
Theorem LoadAccess_four_queries_per_grant d tok l :
  lineage d tok l ->
  (forall t, t ∈ l ->
     exists row, stored t (access d) = Some row /\ resolves d row = true) ->
  forall fs,
  exists g,
    LoadAccess (length l) tok
      (mkStorage d (replicate (4 * length l) None ++ fs))
      = Done (Some g, None) (mkStorage d fs) /\
    S (AccessData.depth g) = length l.
Proof.
  induction 1 as [tok Hend|tok row l Hrow Hprev Hl IH]; intros Hall fs.
  - destruct (Hall tok) as (row & Hrow & Hres); [apply list_elem_of_here|].
    change (replicate (4 * length [tok]) None ++ fs)%list
      with (@None error :: None :: None :: None :: fs).
    change (length [tok]) with 1%nat.
    rewrite (LoadAccess_step_calls 0 tok d fs row Hrow Hres).
    rewrite (Hend row Hrow). change (nonempty "") with false. cbv iota.
    eexists. split; reflexivity.
  - destruct (Hall tok) as (row' & Hrow' & Hres); [apply list_elem_of_here|].
    assert (row' = row) as -> by congruence.
    destruct (IH (fun t Ht => Hall t (list_elem_of_further _ _ _ Ht)) fs)
      as (g & Hg & Hdepth).
    cbn [length].
    replace (4 * S (length l))%nat with (S (S (S (S (4 * length l))))) by lia.
    cbn [replicate app].
    rewrite (LoadAccess_step_calls (length l) tok d _ row Hrow Hres).
    apply nonempty_true in Hprev. rewrite Hprev, Hg.
    eexists. split; [reflexivity|]. simpl. rewrite Hdepth. reflexivity.
Qed.

Lemma LoadAccess_four_queries_per_grant_witness :
  exists g,
    LoadAccess (length ["tokB"; "tokA"]) "tokB"
      (mkStorage (db store_AB)
         (replicate (4 * length ["tokB"; "tokA"]) None
            ++ [Some (DriverFault 9)]))
      = Done (Some g, None) (mkStorage (db store_AB) [Some (DriverFault 9)]) /\
    S (AccessData.depth g) = length ["tokB"; "tokA"].
Proof.
  apply (LoadAccess_four_queries_per_grant (db store_AB) "tokB"
           ["tokB"; "tokA"]).
  - apply (lineage_cons _ _ (mkAccessRow "app" "code1" "tokA" "refB" 3600
                               "read" "http://cb" 1700003700));
      [vm_compute; reflexivity|discriminate|].
    apply lineage_last. intros row Hrow. vm_compute in Hrow.
    injection Hrow as <-. reflexivity.
  - intros t Ht. apply elem_of_cons in Ht. destruct Ht as [->|Ht].
    + eexists. split; vm_compute; reflexivity.
    + apply list_elem_of_singleton in Ht. subst t.
      eexists. split; vm_compute; reflexivity.
Defined.

(** ** Further properties: what a save leaves alone *)

(** X19: [SaveAccess] never changes a client or an authorization code,
    never changes the access row of another token and never changes the
    refresh row of another token, whatever it returns and whichever call
    fails. *)
Theorem SaveAccess_frame data s :
  match SaveAccess data s with
  | Done _ s' | Panic s' =>
      client (db s') = client (db s) /\
      authorize (db s') = authorize (db s) /\
      (forall t, t <> AccessData.AccessToken data ->
         stored t (access (db s')) = stored t (access (db s))) /\
      (forall t, t <> AccessData.RefreshToken data ->
         stored t (refresh (db s')) = stored t (refresh (db s)))
  | Diverge => False
  end.
Proof.
  pose proof (SaveAccess_cases data s) as H.
  destruct (SaveAccess data s) as [[e|] s'|s'|]; try exact H.
  - rewrite H. auto.
  - destruct H as (row & acc & _ & Hacc0 & _ & Hacc & Hcl & Hau & Hrf).
    split; [exact Hcl|]. split; [exact Hau|]. split.
    + intros t Hne. rewrite Hacc, Hacc0. simpl.
      apply lookup_insert_ne. congruence.
    + intros t Hne.
      destruct (nonempty (AccessData.RefreshToken data)).
      * destruct Hrf as (rf & Hrf0 & _ & Hrf). rewrite Hrf, Hrf0. simpl.
        apply lookup_insert_ne. congruence.
      * rewrite Hrf. reflexivity.
  - destruct H as [H _]. rewrite H. auto.
Qed.

(** X20: [GetClient] of an id without a record, in an existing client
    table and with a query that goes through, returns [sql.ErrNoRows] and no
    client, and changes no table. *)
Theorem GetClient_unknown_id id s m :
  client (db s) = Some m -> m !! id = None -> pending s = None ->
  GetClient id s = Done (None, Some ErrNoRows) (called s).
Proof.
  intros Hm Hfree Hp. rewrite GetClient_spec, Hp, Hm.
  rewrite (select_missing _ _ _ Hfree). reflexivity.
Qed.

Lemma GetClient_unknown_id_witness :
  GetClient "ghost" sample_store
    = Done (None, Some ErrNoRows) (called sample_store).
Proof.
  apply (GetClient_unknown_id "ghost" sample_store
           {[ "app" := mkClientRow "s3cret" "http://cb" ]}); reflexivity.
Defined.
